(** * prepare_counts_by_country_decade_medium.py

    A shallow embedding of the script that turns the master table of museum
    objects into counts per (region, country, decade, medium_group), and the
    properties of its medium classifier, decade calculator, region mapping
    and aggregation.

    Conventions of the embedding:
    - Python text is a [string] of bytes; [str.lower] and [str.strip] are
      modelled on their ASCII behaviour (every keyword of the script is ASCII).
    - a cell of a text column is text or the missing value (float nan), a cell
      of a year column is missing, a number or text;
    - numbers are exact: a finite value is a rational, the two IEEE
      infinities are kept apart because [int] raises on them;
    - pandas uses object-dtype text columns, so [astype(str)] renders a
      missing cell as the text nan. *)

From Stdlib Require Import ZArith QArith Qround Lqa Ascii String List Bool Lia.
From stdpp Require Import base option list gmap strings sorting.

Local Open Scope string_scope.
Local Open Scope Z_scope.
Local Open Scope list_scope.

(** ** Python text *)

(** The ASCII part of [str.lower]: the letters A to Z go to a to z and every
    other byte stays. Characters outside ASCII are not lower-cased here, also
    not the two whose lower case is an ASCII letter (the Kelvin sign and the
    dotted capital I); the statements below hold for text without them. *)
Definition lower_char (c : ascii) : ascii :=
  let n := N_of_ascii c in
  if ((65 <=? n) && (n <=? 90))%N then ascii_of_N (n + 32) else c.

Fixpoint lower (s : string) : string :=
  match s with
  | EmptyString => EmptyString
  | String c s' => String (lower_char c) (lower s')
  end.

(** [k in s] for two pieces of text: [k] starts at some position of [s]. *)
Fixpoint str_in (k s : string) : bool :=
  String.prefix k s ||
  match s with
  | EmptyString => false
  | String _ s' => str_in k s'
  end.

(** A cell of a text column as Python sees it: text, or the float nan that
    pandas stores for a missing cell. *)
Inductive pytext : Type :=
  | PyNaN
  | PyStr (s : string).

#[global] Instance pytext_eq_dec : EqDecision pytext.
Proof. solve_decision. Defined.

(** [str(x or empty)]: the empty text is falsy and is replaced by the empty
    text, nan is truthy and prints as nan. *)
Definition str_or_empty (x : pytext) : string :=
  match x with
  | PyNaN => "nan"
  | PyStr s => s
  end.

(** ** Medium classifier *)

(** [any(k in combo for k in ks)] *)
Definition any_in (ks : list string) (combo : string) : bool :=
  existsb (fun k => str_in k combo) ks.

Definition categorize_medium (classification medium : pytext) : string :=
  let c := lower (str_or_empty classification) in
  let m := lower (str_or_empty medium) in
  let combo := c +:+ " " +:+ m in
  if any_in ["photograph"; "gelatin silver"; "albumen print"; "photo "] combo
  then "Photographs"
  else if any_in ["print"; "engraving"; "etching"; "lithograph"; "woodcut";
                  "screenprint"] combo
  then "Prints"
  else if any_in ["drawing"; "graphite"; "pencil"; "pen and ink"; "watercolor";
                  "watercolour"] combo
  then "Drawings"
  else if any_in ["painting"; "oil on canvas"; "tempera"; "acrylic"] combo
  then "Paintings"
  else if any_in ["sculpture"; "bronze"; "marble"; "carved stone"] combo
  then "Sculpture"
  else if any_in ["textile"; "tapestry"; "silk"; "cotton"; "linen"; "wool"] combo
  then "Textiles"
  else if any_in ["ceramic"; "porcelain"; "earthenware"; "stoneware"; "pottery";
                  "glass"; "furniture"; "decorative art"] combo
  then "Decorative arts"
  else "Other".

(** The classifier as the specification words it: an ordered table of
    categories with their keyword sets, searched for the first category one
    of whose keywords occurs in the search text. *)
Definition medium_table : list (string * list string) :=
  [ ("Photographs", ["photograph"; "gelatin silver"; "albumen print"; "photo "]);
    ("Prints", ["print"; "engraving"; "etching"; "lithograph"; "woodcut";
                "screenprint"]);
    ("Drawings", ["drawing"; "graphite"; "pencil"; "pen and ink"; "watercolor";
                  "watercolour"]);
    ("Paintings", ["painting"; "oil on canvas"; "tempera"; "acrylic"]);
    ("Sculpture", ["sculpture"; "bronze"; "marble"; "carved stone"]);
    ("Textiles", ["textile"; "tapestry"; "silk"; "cotton"; "linen"; "wool"]);
    ("Decorative arts", ["ceramic"; "porcelain"; "earthenware"; "stoneware";
                         "pottery"; "glass"; "furniture"; "decorative art"]) ].

(** [occurs_in k s]: [k] is a substring of [s]. *)
Definition occurs_in (k s : string) : Prop :=
  exists a b : string, s = a +:+ k +:+ b.

Fixpoint first_category (table : list (string * list string)) (text : string)
  : string :=
  match table with
  | [] => "Other"
  | (category, keywords) :: rest =>
      if any_in keywords text then category else first_category rest text
  end.

(** ** Numbers and cells *)

(** A float or integer value: finite values are exact rationals, the
    infinities are the IEEE ones. *)
Inductive num : Type :=
  | Fin (q : Q)
  | PosInf
  | NegInf.

(** A cell of a year column: missing (nan), a number, or text when the column
    could not be read as numbers. *)
Inductive cell : Type :=
  | CNaN
  | CNum (n : num)
  | CStr (s : string).

Inductive exn : Type :=
  | AttributeError
  | OverflowError.

Inductive result (A : Type) : Type :=
  | Ok (a : A)
  | Raised (e : exn).
Arguments Ok {A} a.
Arguments Raised {A} e.

Definition result_bind {A B : Type} (r : result A) (k : A -> result B)
  : result B :=
  match r with
  | Ok a => k a
  | Raised e => Raised e
  end.

(** [year / 10.0] *)
Definition div10 (y : num) : num :=
  match y with
  | Fin q => Fin (q / 10)
  | PosInf => PosInf
  | NegInf => NegInf
  end.

(** [np.floor] *)
Definition np_floor (y : num) : num :=
  match y with
  | Fin q => Fin (inject_Z (Qfloor q))
  | PosInf => PosInf
  | NegInf => NegInf
  end.

(** [... * 10] *)
Definition mul10 (y : num) : num :=
  match y with
  | Fin q => Fin (q * 10)
  | PosInf => PosInf
  | NegInf => NegInf
  end.

(** [int]: truncation toward zero, OverflowError on an infinity. *)
Definition py_int (y : num) : result Z :=
  match y with
  | Fin q => Ok (if Qle_bool 0 q then Qfloor q else Qceiling q)
  | PosInf => Raised OverflowError
  | NegInf => Raised OverflowError
  end.

(** ** Tables *)

Definition MASTER_COUNTRY_COL : string := "origin_country_std".
Definition MASTER_START_YEAR_COL : string := "creation_start_year_std".
Definition MASTER_END_YEAR_COL : string := "creation_end_year_std".
Definition MASTER_CLASS_COL : string := "classification_std".
Definition MASTER_MEDIUM_COL : string := "medium_std".

Definition FLOWS_COUNTRY_COL : string := "origin_country".
Definition FLOWS_REGION_COL : string := "region".

Definition MIN_DECADE : Z := 1400.
Definition MAX_DECADE : Z := 2020.

(** A row of the master table, by the five columns the script reads. The
    field of a column that the table lacks is never read. *)
Record master_row : Type := {
  origin_country_std : pytext;
  creation_start_year_std : cell;
  creation_end_year_std : cell;
  classification_std : pytext;
  medium_std : pytext
}.

(** The master DataFrame: its header and its rows, indexed 0, 1, 2, ... *)
Record master_frame : Type := {
  master_columns : list string;
  master_rows : list master_row
}.

Record flows_row : Type := {
  origin_country : pytext;
  flows_region : pytext
}.

Record flows_frame : Type := {
  flows_columns : list string;
  flows_rows : list flows_row
}.

(** [col in df.columns] *)
Definition has_column (col : string) (columns : list string) : bool :=
  bool_decide (col ∈ columns).

(** ** Whitespace stripping *)

(** ASCII characters for which [str.isspace] holds. Whitespace outside ASCII
    (the no-break space and the like), which [str.strip] removes too, is kept
    here; the statements below hold for text without it. *)
Definition is_space (c : ascii) : bool :=
  let n := N_of_ascii c in
  ((9 <=? n) && (n <=? 13) || (28 <=? n) && (n <=? 32))%N.

Fixpoint lstrip (s : string) : string :=
  match s with
  | EmptyString => EmptyString
  | String c s' => if is_space c then lstrip s' else s
  end.

Fixpoint rstrip (s : string) : string :=
  match s with
  | EmptyString => EmptyString
  | String c s' =>
      match rstrip s' with
      | EmptyString => if is_space c then EmptyString else String c EmptyString
      | t => String c t
      end
  end.

Definition strip (s : string) : string := rstrip (lstrip s).

(** [Series.astype(str)] on one cell of an object column. *)
Definition astype_str (x : pytext) : string :=
  match x with
  | PyNaN => "nan"
  | PyStr s => s
  end.

(** ** Region mapping *)

(** [dropna(subset=[country, region])] *)
Definition dropna (rows : list flows_row) : list (string * string) :=
  omap (fun r =>
          match origin_country r, flows_region r with
          | PyStr c, PyStr g => Some (c, g)
          | _, _ => None
          end) rows.

(** How many entries of [l] equal [x]. *)
Definition occurrences_of {A : Type} `{EqDecision A} (l : list A) (x : A) : nat :=
  length (filter (fun y => y = x) l).

(** The distinct values of [s], each at the place of its first occurrence
    ([remove_dups] alone keeps the last one). *)
Definition unique_values (s : list string) : list string :=
  reverse (remove_dups (reverse s)).

(** [s.value_counts()]: each distinct value with its number of occurrences,
    the values in order of first occurrence. pandas then sorts them by
    decreasing count and keeps that order among equal counts, which moves no
    count and leaves [idxmax] the same entry. *)
Definition value_counts (s : list string) : list (string * nat) :=
  fmap (fun v => (v, occurrences_of s v)) (unique_values s).

(** [idxmax]: the label of the first entry whose count is the largest, so that
    among regions of equal count the one met first in the table wins. *)
Definition idxmax (counts : list (string * nat)) : option string :=
  let top := max_list (fmap snd counts) in
  fst <$> find (fun p => (top <=? snd p)%nat) counts.

(** [flows_clean.groupby(country)[region].agg(lambda s: s.value_counts().idxmax())
    .to_dict()]: one entry per country of the cleaned rows, holding the most
    frequent region among the rows of that country. *)
Definition regions_of (country : string) (flows_clean : list (string * string))
  : list string :=
  fmap snd (filter (fun p => fst p = country) flows_clean).

Definition country_region (flows_clean : list (string * string))
  : list (string * string) :=
  omap (fun c => (fun g => (c, g)) <$> idxmax (value_counts (regions_of c flows_clean)))
       (remove_dups (fmap fst flows_clean)).

Definition build_country_to_region (flows_df : flows_frame) : gmap string string :=
  let flows_clean := dropna (flows_rows flows_df) in
  list_to_map (country_region flows_clean).

(** [df[country].map(country_to_region) if country_to_region else "Unknown"],
    followed by [fillna("Unknown")]. *)
Definition region_of (country_to_region : gmap string string) (country : string)
  : string :=
  if bool_decide (country_to_region = ∅) then "Unknown"
  else default "Unknown" (country_to_region !! country).

(** ** Aggregation *)

(** A row of the working table once its decade is known: the index label it
    had in the master table, and the derived region, country and decade. *)
Record derived : Type := {
  d_index : nat;
  d_region : string;
  d_country : string;
  d_decade : Z
}.

(** The grouping key (region, country, decade, medium_group). *)
Definition key : Type := string * string * Z * string.

Record agg_row : Type := {
  region : string;
  country : string;
  decade : Z;
  medium_group : string;
  n_objects : nat
}.

Definition key_of (r : agg_row) : key :=
  (region r, country r, decade r, medium_group r).

(** Order of the group keys: column by column, text by code points. *)
Definition key_leb (a b : key) : bool :=
  let '(r1, c1, d1, m1) := a in
  let '(r2, c2, d2, m2) := b in
  match String.compare r1 r2 with
  | Lt => true
  | Gt => false
  | Eq =>
      match String.compare c1 c2 with
      | Lt => true
      | Gt => false
      | Eq =>
          match Z.compare d1 d2 with
          | Lt => true
          | Gt => false
          | Eq => String.leb m1 m2
          end
      end
  end.

Definition key_le (a b : key) : Prop := key_leb a b = true.

#[global] Instance key_eq_dec : EqDecision key.
Proof. solve_decision. Defined.

#[global] Instance key_le_dec (a b : key) : Decision (key_le a b).
Proof. unfold key_le. solve_decision. Defined.

(** [groupby([...], dropna=False).size().reset_index(name="n_objects")]: one
    row per distinct key, keys in increasing order, with the number of rows
    of the working table that carry the key. *)
Definition groupby_size (keys : list key) : list agg_row :=
  fmap (fun k : key =>
         let '(r, c, d, m) := k in
         {| region := r; country := c; decade := d; medium_group := m;
            n_objects := occurrences_of keys k |})
      (merge_sort key_le (remove_dups keys)).

(** ** The run: dialogs, early returns, exceptions and the written file *)

(** A message box, by its kind, its title and the fixed part of its text
    (values interpolated into a message are not rendered). *)
Inductive dialog : Type :=
  | showinfo (title message : string)
  | showwarning (title message : string)
  | showerror (title message : string).

(** What the operator and the file system answer during a run. The empty path
    is the answer of a cancelled file dialog; a read that raises gives
    [None]; [can_write] tells whether [to_csv] succeeds at a path. *)
Record world : Type := {
  pick_file : string -> string;
  save_file : string -> string -> string;
  read_csv_master : string -> option master_frame;
  read_csv_flows : string -> option flows_frame;
  can_write : string -> bool
}.

(** What a run has done so far: the dialogs shown, oldest first, and the
    output file if it was written. *)
Record state : Type := {
  shown : list dialog;
  file : option (string * list agg_row)
}.

(** How a piece of [main] ends: it goes on with a value, it executes
    [return], or it raises. *)
Inductive flow (A : Type) : Type :=
  | Next (a : A)
  | Return
  | Raise (e : exn).
Arguments Next {A} a.
Arguments Return {A}.
Arguments Raise {A} e.

Definition prog (A : Type) : Type := state -> state * flow A.

#[global] Instance prog_ret : MRet prog := fun A a st => (st, Next a).

#[global] Instance prog_bind : MBind prog := fun A B k c st =>
  match c st with
  | (st', Next a) => k a st'
  | (st', Return) => (st', Return)
  | (st', Raise e) => (st', Raise e)
  end.

Definition messagebox (d : dialog) : prog unit := fun st =>
  ({| shown := shown st ++ [d]; file := file st |}, Next tt).

Definition py_return {A : Type} : prog A := fun st => (st, Return).

Definition lift {A : Type} (r : result A) : prog A := fun st =>
  match r with
  | Ok a => (st, Next a)
  | Raised e => (st, Raise e)
  end.

(** [grouped.to_csv(out_path, index=False)] inside its [try]: [true] when the
    file was written. *)
Definition to_csv (w : world) (out_path : string) (grouped : list agg_row)
  : prog bool := fun st =>
  if can_write w out_path
  then ({| shown := shown st; file := Some (out_path, grouped) |}, Next true)
  else (st, Next false).

(** The working table after lines 196 to 206: for each master row whose
    decade is not nan, its index label, region, country and decade. *)
Definition derive (country_to_region : gmap string string) (i : nat)
    (row : master_row) (decade : Z) : derived :=
  let stripped := strip (astype_str (origin_country_std row)) in
  {| d_index := i;
     d_region := region_of country_to_region stripped;
     d_country := if bool_decide (stripped = EmptyString) then "Unknown" else stripped;
     d_decade := decade |}.

Definition working_table (country_to_region : gmap string string)
    (rows : list master_row) (decades : list (option Z)) : list derived :=
  omap id (imap (fun i rd => derive country_to_region i (fst rd) <$> snd rd)
                (zip rows decades)).

(** The value bound to [classification] or [medium_raw] at lines 215 and 216:
    a column of the master table, or the empty text. *)
Inductive pyobj : Type :=
  | Series (values : list pytext)
  | Str (s : string).

(** [x.reindex(index, fill_value=empty)]; text has no such method. *)
Definition reindex (x : pyobj) (index : list nat) : result (list pytext) :=
  match x with
  | Series values => Ok (fmap (fun i => default (PyStr EmptyString) (values !! i)) index)
  | Str _ => Raised AttributeError
  end.

Definition group_key (d : derived) (medium_group : string) : key :=
  (d_region d, d_country d, d_decade d, medium_group).

(** ** Decade calculator *)

Section Pipeline.

(** [pd.to_numeric(s, errors="coerce")] on a piece of text: the number pandas
    reads in it, or nothing (nan) when it reads none. *)
Variable to_numeric_str : string -> option num.

(** [pd.to_numeric(x, errors="coerce")] on a cell; [None] is nan. *)
Definition to_numeric (x : cell) : option num :=
  match x with
  | CNaN => None
  | CNum n => Some n
  | CStr s => to_numeric_str s
  end.

(** The year the decade is computed from: lines 101 to 103 of the script. *)
Definition year_of (row : master_row) : option num :=
  let start := creation_start_year_std row in
  let end_ := creation_end_year_std row in
  let year := to_numeric start in
  if bool_decide (year = None) then to_numeric end_ else year.

(** [compute_decade]: [Ok None] is the returned nan. *)
Definition compute_decade (row : master_row) : result (option Z) :=
  match year_of row with
  | None => Ok None
  | Some year =>
      result_bind (py_int (mul10 (np_floor (div10 year)))) (fun decade =>
        if (decade <? MIN_DECADE) || (decade >? MAX_DECADE) then Ok None
        else Ok (Some decade))
  end.

(** [df.apply(compute_decade, axis=1)]: row by row, the first exception ends
    the whole call. *)
Fixpoint apply_compute_decade (rows : list master_row) : result (list (option Z)) :=
  match rows with
  | [] => Ok []
  | row :: rows' =>
      result_bind (compute_decade row) (fun d =>
      result_bind (apply_compute_decade rows') (fun ds => Ok (d :: ds)))
  end.

(** The message boxes of the script. *)
Definition step_1 : dialog :=
  showinfo "Step 1"
    "Select your master objects CSV (e.g. combinedMuseumObjects (1).csv).".
Definition step_2 : dialog :=
  showinfo "Step 2 (optional)"
    "Select flows_country_to_museum.csv to map countries to regions.You may cancel this if you don't want regions.".
Definition flows_columns_missing : dialog :=
  showwarning "Flows columns missing"
    "Expected origin_country and region in flows file, but could not find them. Region mapping will be skipped.".
Definition no_rows_remain : dialog :=
  showwarning "No data"
    "No rows remain after computing decades within the valid range.".
Definition no_rows_produced : dialog :=
  showwarning "No data" "No rows produced after grouping.".
Definition step_3 : dialog :=
  showinfo "Step 3" "Choose where to save counts_by_country_decade_medium.csv".

(** ** The script *)

(** [main] is cut at its comment banners into four parts, run one after the
    other. *)

(** Lines 115 to 167: the two file dialogs, the two reads and the check of
    the required columns. Yields [master_df], [flows_df] ([None] when no flows
    file was picked) and [use_flows]. *)
Definition load_inputs (w : world)
  : prog (master_frame * option flows_frame * bool) :=
  messagebox step_1 ;;
  let master_path := pick_file w "Select master objects CSV" in
  if bool_decide (master_path = EmptyString)
  then messagebox (showwarning "Cancelled" "No master file selected.") ;; py_return
  else
  messagebox step_2 ;;
  let flows_path := pick_file w "Select flows_country_to_museum.csv" in
  let use_flows := negb (bool_decide (flows_path = EmptyString)) in
  master_df ←
    match read_csv_master w master_path with
    | Some df => mret df
    | None =>
        messagebox (showerror "Error" "Could not read master CSV:") ;; py_return
    end;
  flows_df ←
    (if use_flows
     then match read_csv_flows w flows_path with
          | Some df => mret (Some df)
          | None =>
              messagebox (showerror "Error" "Could not read flows CSV:") ;;
              py_return
          end
     else mret None);
  let missing_master :=
    filter (fun col => has_column col (master_columns master_df) = false)
           [MASTER_COUNTRY_COL; MASTER_START_YEAR_COL; MASTER_END_YEAR_COL] in
  if negb (bool_decide (missing_master = []))
  then messagebox (showerror "Missing columns in master file" "Missing:") ;;
       py_return
  else mret (master_df, flows_df, use_flows).

(** Lines 169 to 184: the dictionary [country_to_region]. *)
Definition region_mapping (use_flows : bool) (flows_df : option flows_frame)
  : prog (gmap string string) :=
  if use_flows
  then match flows_df with
       | None => lift (Raised AttributeError)
       | Some flows_df =>
           if negb (has_column FLOWS_COUNTRY_COL (flows_columns flows_df))
              || negb (has_column FLOWS_REGION_COL (flows_columns flows_df))
           then messagebox flows_columns_missing ;; mret ∅
           else mret (build_country_to_region flows_df)
       end
  else mret ∅.

(** Lines 186 to 230: region, country and decade of every row, the rows
    without a decade dropped, the medium group of the rest, and the counts
    per group. Yields [grouped]. *)
Definition prepare_and_group (country_to_region : gmap string string)
    (master_df : master_frame) : prog (list agg_row) :=
  decades ← lift (apply_compute_decade (master_rows master_df));
  let df := working_table country_to_region (master_rows master_df) decades in
  if bool_decide (df = [])
  then messagebox no_rows_remain ;; py_return
  else
  let classification :=
    if has_column MASTER_CLASS_COL (master_columns master_df)
    then Series (fmap classification_std (master_rows master_df)) else Str EmptyString in
  let medium_raw :=
    if has_column MASTER_MEDIUM_COL (master_columns master_df)
    then Series (fmap medium_std (master_rows master_df)) else Str EmptyString in
  cs ← lift (reindex classification (fmap d_index df));
  ms ← lift (reindex medium_raw (fmap d_index df));
  let medium_groups := zip_with categorize_medium cs ms in
  mret (groupby_size (zip_with group_key df medium_groups)).

(** Lines 232 to 258: the check for an empty result, the save dialog and the
    write. *)
Definition save_grouped (w : world) (grouped : list agg_row) : prog unit :=
  if bool_decide (grouped = [])
  then messagebox no_rows_produced ;; py_return
  else
  messagebox step_3 ;;
  let out_path := save_file w "Save counts_by_country_decade_medium.csv"
                    "counts_by_country_decade_medium.csv" in
  if bool_decide (out_path = EmptyString)
  then messagebox (showwarning "Cancelled" "No output path selected.") ;; py_return
  else
  written ← to_csv w out_path grouped;
  if (written : bool)
  then messagebox (showinfo "Done" "Wrote rows to:")
  else messagebox (showerror "Error" "Could not write CSV:") ;; py_return.

Definition main (w : world) : prog unit :=
  inputs ← load_inputs w;
  let '(master_df, flows_df, use_flows) := inputs in
  country_to_region ← region_mapping use_flows flows_df;
  grouped ← prepare_and_group country_to_region master_df;
  save_grouped w grouped.

(** A whole run, from nothing shown and nothing written. *)
Definition run (w : world) : state * flow unit :=
  main w {| shown := []; file := None |}.

(** The group key of a master row, read off the row itself: nothing when the
    row has no decade. *)
Definition row_key (country_to_region : gmap string string) (row : master_row)
  : option key :=
  match compute_decade row with
  | Ok (Some d) =>
      Some (group_key (derive country_to_region 0 row d)
                      (categorize_medium (classification_std row) (medium_std row)))
  | _ => None
  end.

(** Whether a decade was computed for the row. *)
Definition has_decade (row : master_row) : bool :=
  match compute_decade row with
  | Ok (Some _) => true
  | _ => false
  end.

End Pipeline.

(** ** Worked inputs *)

(** A reader of plain decimal numerals, standing for [pd.to_numeric] on text
    in the worked examples. *)
Fixpoint digits_value (acc : Z) (s : string) : option Z :=
  match s with
  | EmptyString => Some acc
  | String c s' =>
      let n := Z.of_N (N_of_ascii c) in
      if (48 <=? n) && (n <=? 57) then digits_value (10 * acc + (n - 48)) s'
      else None
  end.

Definition decimal_numeral (s : string) : option num :=
  match s with
  | EmptyString => None
  | _ => (fun z => Fin (inject_Z z)) <$> digits_value 0 s
  end.

Definition object_row (country : string) (start_year : Z)
    (classification medium : string) : master_row :=
  {| origin_country_std := PyStr country;
     creation_start_year_std := CNum (Fin (inject_Z start_year));
     creation_end_year_std := CNaN;
     classification_std := PyStr classification;
     medium_std := PyStr medium |}.

(** The three records of the end-to-end example of the specification. *)
Definition example_master : master_frame :=
  {| master_columns := [MASTER_COUNTRY_COL; MASTER_START_YEAR_COL;
                        MASTER_END_YEAR_COL; MASTER_CLASS_COL; MASTER_MEDIUM_COL];
     master_rows := [ object_row "France" 1875 "Painting" "oil on canvas";
                      object_row "France" 1876 "Print" "engraving";
                      object_row "Japan" 1630 EmptyString "porcelain" ] |}.

Definition example_flows : flows_frame :=
  {| flows_columns := [FLOWS_COUNTRY_COL; FLOWS_REGION_COL];
     flows_rows := [ {| origin_country := PyStr "France"; flows_region := PyStr "Europe" |};
                     {| origin_country := PyStr "France"; flows_region := PyStr "Europe" |};
                     {| origin_country := PyStr "France"; flows_region := PyStr "Asia" |} ] |}.

(** An operator who picks all three files, on a file system where every read
    and the write succeed. *)
Definition world_of (master_df : master_frame) (flows_df : option flows_frame)
  : world :=
  {| pick_file := fun title =>
       if String.eqb title "Select master objects CSV" then "master.csv"
       else match flows_df with Some _ => "flows.csv" | None => EmptyString end;
     save_file := fun _ default_name => default_name;
     read_csv_master := fun _ => Some master_df;
     read_csv_flows := fun _ => flows_df;
     can_write := fun _ => true |}.

Definition example_world : world := world_of example_master (Some example_flows).

(** ** Vocabulary of the statements *)

(** The operator picked a master file, it was read as [master_df], and it has
    the three required columns. *)
Definition master_loaded (w : world) (master_df : master_frame) : Prop :=
  let master_path := pick_file w "Select master objects CSV" in
  master_path <> EmptyString /\ read_csv_master w master_path = Some master_df /\
  Forall (fun col => col ∈ master_columns master_df)
         [MASTER_COUNTRY_COL; MASTER_START_YEAR_COL; MASTER_END_YEAR_COL].

(** The operator cancelled the flows dialog ([None]), or picked a flows file
    that was read as the given table. *)
Definition flows_loaded (w : world) (flows_df : option flows_frame) : Prop :=
  let flows_path := pick_file w "Select flows_country_to_museum.csv" in
  match flows_df with
  | None => flows_path = EmptyString
  | Some df => flows_path <> EmptyString /\ read_csv_flows w flows_path = Some df
  end.

(** The state after some more dialogs. *)
Definition say (st : state) (ds : list dialog) : state :=
  {| shown := shown st ++ ds; file := file st |}.

(** The number of rows of the lookup table that give country [c] the region
    [g]; a row with a missing country or region counts for no pair. *)
Definition votes (flows_df : flows_frame) (c g : string) : nat :=
  length (filter (fun r => origin_country r = PyStr c /\ flows_region r = PyStr g)
                 (flows_rows flows_df)).

(** A lookup row with neither field missing. *)
Definition complete (r : flows_row) : Prop :=
  origin_country r <> PyNaN /\ flows_region r <> PyNaN.

(** The same operator and file system, except that the flows dialog is
    cancelled. *)
Definition cancel_flows (w : world) : world :=
  {| pick_file := fun title =>
       if String.eqb title "Select flows_country_to_museum.csv" then EmptyString
       else pick_file w title;
     save_file := save_file w;
     read_csv_master := read_csv_master w;
     read_csv_flows := read_csv_flows w;
     can_write := can_write w |}.

(** The example master table without its classification column. *)
Definition master_without_classification : master_frame :=
  {| master_columns := [MASTER_COUNTRY_COL; MASTER_START_YEAR_COL;
                        MASTER_END_YEAR_COL; MASTER_MEDIUM_COL];
     master_rows := master_rows example_master |}.

(** A lookup table whose region column has another name. *)
Definition flows_without_region : flows_frame :=
  {| flows_columns := [FLOWS_COUNTRY_COL; "continent"];
     flows_rows := flows_rows example_flows |}.

(** A record whose start year is text that is no number and whose end year
    is missing. *)
Definition row_without_years : master_row :=
  {| origin_country_std := PyStr "Japan";
     creation_start_year_std := CStr "unknown";
     creation_end_year_std := CNaN;
     classification_std := PyNaN;
     medium_std := PyStr "porcelain" |}.

(** A master table none of whose records has a decade in range: a year
    before 1400, a year after 2029, and no year. *)
Definition master_out_of_range : master_frame :=
  {| master_columns := master_columns example_master;
     master_rows :=
       [ object_row "Italy" 1399 "Painting" "tempera";
         object_row "France" 2030 "Print" "screenprint";
         row_without_years ] |}.

(** A record without a country, and one whose country is blank. *)
Definition row_without_country : master_row :=
  {| origin_country_std := PyNaN;
     creation_start_year_std := CNaN;
     creation_end_year_std := CStr "1512";
     classification_std := PyStr "Drawing";
     medium_std := PyStr "pen and ink" |}.

Definition row_blank_country : master_row :=
  {| origin_country_std := PyStr "   ";
     creation_start_year_std := CNum (Fin (18755 # 10));
     creation_end_year_std := CNaN;
     classification_std := PyStr "Sculpture";
     medium_std := PyStr "marble" |}.

(** ** Vocabulary of the further statements *)

(** One of the two IEEE infinities. *)
Definition infinite (y : num) : Prop := y = PosInf \/ y = NegInf.

(** A warning or an error box. *)
Definition is_alert (d : dialog) : bool :=
  match d with
  | showinfo _ _ => false
  | showwarning _ _ => true
  | showerror _ _ => true
  end.

(** Whether the lookup table has both expected columns. *)
Definition has_flows_columns (flows_df : flows_frame) : bool :=
  has_column FLOWS_COUNTRY_COL (flows_columns flows_df)
  && has_column FLOWS_REGION_COL (flows_columns flows_df).

(** The dictionary a run works with, by the lookup table it loaded. *)
Definition country_to_region_of (flows_df : option flows_frame)
  : gmap string string :=
  match flows_df with
  | Some df => if has_flows_columns df then build_country_to_region df else ∅
  | None => ∅
  end.

(** The dialogs of the region mapping, by the lookup table loaded. *)
Definition region_mapping_dialogs (flows_df : option flows_frame) : list dialog :=
  match flows_df with
  | Some df => if has_flows_columns df then [] else [flows_columns_missing]
  | None => []
  end.

(** Whether every suffix of [k] starts the text " nan" exactly when it starts
    the text " ". *)
Fixpoint blind_to_nan (k : string) : bool :=
  Bool.eqb (String.prefix k " nan") (String.prefix k " ")
  && match k with
     | EmptyString => true
     | String _ k' => blind_to_nan k'
     end.

(** A record whose start year is before the range and whose end year is
    inside it, and a record whose start year is an infinity. *)
Definition row_early_start : master_row :=
  {| origin_country_std := PyStr "Italy";
     creation_start_year_std := CNum (Fin (inject_Z 1390));
     creation_end_year_std := CNum (Fin (inject_Z 1450));
     classification_std := PyStr "Painting";
     medium_std := PyStr "tempera" |}.

Definition row_infinite_year : master_row :=
  {| origin_country_std := PyStr "Italy";
     creation_start_year_std := CNum PosInf;
     creation_end_year_std := CNum (Fin (inject_Z 1450));
     classification_std := PyStr "Painting";
     medium_std := PyStr "tempera" |}.

Definition master_with_infinite_year : master_frame :=
  {| master_columns := master_columns example_master;
     master_rows := master_rows example_master ++ [row_infinite_year] |}.



(** The row with another country cell. *)
Definition with_country (row : master_row) (c : pytext) : master_row :=
  {| origin_country_std := c;
     creation_start_year_std := creation_start_year_std row;
     creation_end_year_std := creation_end_year_std row;
     classification_std := classification_std row;
     medium_std := medium_std row |}.

(** * Properties *)

(** * Text *)

Lemma prefix_spec (k s : string) :
  String.prefix k s = true <-> exists b, s = k +:+ b.
Proof.
  revert s. induction k as [|c k IH]; intros s; simpl.
  - split; [intros _; by exists s | intros _; by destruct s].
  - destruct s as [|c' s]; simpl.
    + split; [done | intros [b Hb]; discriminate].
    + destruct (Ascii.ascii_dec c c') as [->|Hne].
      * rewrite IH. split; intros [b Hb]; exists b; [by rewrite Hb | by injection Hb].
      * split; [done | intros [b Hb]; injection Hb; congruence].
Qed.

Lemma str_in_nil (k : string) : str_in k EmptyString = String.prefix k EmptyString || false.
Proof. reflexivity. Qed.

Lemma str_in_cons (k : string) (c : ascii) (s : string) :
  str_in k (String c s) = String.prefix k (String c s) || str_in k s.
Proof. reflexivity. Qed.

Lemma str_in_spec (k s : string) : str_in k s = true <-> occurs_in k s.
Proof.
  unfold occurs_in. induction s as [|c s IH].
  - rewrite str_in_nil, orb_false_r, prefix_spec. split.
    + intros [b Hb]. by exists EmptyString, b.
    + intros [a [b Hab]]. destruct a; simpl in Hab; [by exists b | discriminate].
  - rewrite str_in_cons, orb_true_iff, prefix_spec, IH. split.
    + intros [[b Hb] | [a [b Hab]]].
      * by exists EmptyString, b.
      * exists (String c a), b. simpl. by rewrite Hab.
    + intros [a [b Hab]]. destruct a as [|c' a]; simpl in Hab.
      * left. by exists b.
      * right. injection Hab as -> ->. by exists a, b.
Qed.

Lemma any_in_spec (ks : list string) (text : string) :
  any_in ks text = true <-> exists k, k ∈ ks /\ occurs_in k text.
Proof.
  unfold any_in. rewrite existsb_exists. split.
  - intros [k [Hin Hk]]. exists k. split; [by apply list_elem_of_In | by apply str_in_spec].
  - intros [k [Hin Hk]]. exists k. split; [by apply list_elem_of_In | by apply str_in_spec].
Qed.

Lemma first_category_hit (pre post : list (string * list string))
    (cat : string) (kws : list string) (text : string) :
  (forall cat' kws' k, (cat', kws') ∈ pre -> k ∈ kws' -> ~ occurs_in k text) ->
  (exists k, k ∈ kws /\ occurs_in k text) ->
  first_category (pre ++ (cat, kws) :: post)%list text = cat.
Proof.
  intros Hpre Hhit. induction pre as [|[cat' kws'] pre IH]; simpl.
  - apply any_in_spec in Hhit. by rewrite Hhit.
  - destruct (any_in kws' text) eqn:Hany.
    + apply any_in_spec in Hany as [k [Hk Hocc]].
      exfalso. apply (Hpre cat' kws' k); [apply list_elem_of_here | exact Hk | exact Hocc].
    + apply IH. intros c ks k0 Hin Hk0. apply (Hpre c ks k0); [by apply list_elem_of_further | done].
Qed.

Lemma first_category_miss (table : list (string * list string)) (text : string) :
  (forall cat kws k, (cat, kws) ∈ table -> k ∈ kws -> ~ occurs_in k text) ->
  first_category table text = "Other".
Proof.
  intros Hnone. induction table as [|[cat kws] table IH]; simpl; [done|].
  destruct (any_in kws text) eqn:Hany.
  - apply any_in_spec in Hany as [k [Hk Hocc]].
    exfalso. apply (Hnone cat kws k); [apply list_elem_of_here | exact Hk | exact Hocc].
  - apply IH. intros c ks k0 Hin Hk0. apply (Hnone c ks k0); [by apply list_elem_of_further | done].
Qed.

Lemma categorize_medium_table (x y : pytext) :
  categorize_medium x y =
  first_category medium_table
    (lower (str_or_empty x) +:+ " " +:+ lower (str_or_empty y)).
Proof. reflexivity. Qed.

(** C1. On two pieces of text the classifier lower-cases both, joins them
    with one space and returns the first category of the table, in the order
    Photographs, Prints, Drawings, Paintings, Sculpture, Textiles, Decorative
    arts, one of whose keywords occurs in the joined text, and Other when no
    keyword of any category occurs. Text that is just bronze gives Sculpture;
    text with print and bronze gives Prints, as does any text with print and
    no keyword of Photographs. *)
Theorem categorize_medium_priority :
  (forall c m : string,
      categorize_medium (PyStr c) (PyStr m)
      = first_category medium_table (lower c +:+ " " +:+ lower m))
  /\ (forall (text : string) (pre post : list (string * list string)) cat kws,
        medium_table = (pre ++ (cat, kws) :: post)%list ->
        (exists k, k ∈ kws /\ occurs_in k text) ->
        (forall cat' kws' k, (cat', kws') ∈ pre -> k ∈ kws' -> ~ occurs_in k text) ->
        first_category medium_table text = cat)
  /\ (forall text : string,
        (forall cat kws k, (cat, kws) ∈ medium_table -> k ∈ kws -> ~ occurs_in k text) ->
        first_category medium_table text = "Other")
  /\ categorize_medium (PyStr "bronze") (PyStr EmptyString) = "Sculpture"
  /\ categorize_medium (PyStr EmptyString) (PyStr "bronze") = "Sculpture"
  /\ categorize_medium (PyStr "bronze sculpture print") (PyStr EmptyString) = "Prints"
  /\ categorize_medium (PyStr "Print") (PyStr "Bronze") = "Prints"
  /\ (forall c m : string,
        let combo := lower c +:+ " " +:+ lower m in
        occurs_in "print" combo -> occurs_in "bronze" combo ->
        any_in ["photograph"; "gelatin silver"; "albumen print"; "photo "] combo = false ->
        categorize_medium (PyStr c) (PyStr m) = "Prints").
Proof.
  split; [intros c m; apply categorize_medium_table|].
  split.
  { intros text pre post cat kws -> Hhit Hpre. by apply first_category_hit. }
  split; [apply first_category_miss|].
  do 4 (split; [reflexivity|]).
  intros c m combo Hprint _ Hphoto.
  rewrite categorize_medium_table. fold combo.
  apply (first_category_hit
           [("Photographs", ["photograph"; "gelatin silver"; "albumen print"; "photo "])]).
  - intros cat' kws' k Hin Hk Hocc.
    apply list_elem_of_singleton in Hin. injection Hin as -> ->.
    assert (any_in ["photograph"; "gelatin silver"; "albumen print"; "photo "] combo
            = true) as Hyes; [|congruence].
    apply any_in_spec. by exists k.
  - exists "print". split; [apply list_elem_of_here | done].
Qed.

Lemma categorize_medium_priority_witness :
  occurs_in "print" (lower "Bronze" +:+ " " +:+ lower "PRINT, hand-coloured")
  /\ categorize_medium (PyStr "Bronze") (PyStr "PRINT, hand-coloured") = "Prints".
Proof.
  split.
  - by exists "bronze ", ", hand-coloured".
  - destruct categorize_medium_priority as (_ & _ & _ & _ & _ & _ & _ & Hboth).
    apply Hboth.
    + by exists "bronze ", ", hand-coloured".
    + by exists EmptyString, " print, hand-coloured".
    + reflexivity.
Defined.

(** * Decades *)

Lemma Qfloor_integer (z : Z) : Qfloor (inject_Z z * 10) = z * 10.
Proof.
  unfold Qfloor, inject_Z, Qmult. simpl. apply Z.div_1_r.
Qed.

Lemma Qceiling_integer (z : Z) : Qceiling (inject_Z z * 10) = z * 10.
Proof.
  unfold Qceiling, Qfloor, inject_Z, Qmult, Qopp. simpl.
  rewrite Z.div_1_r. lia.
Qed.

Lemma decade_of_finite (Y : Q) :
  py_int (mul10 (np_floor (div10 (Fin Y)))) = Ok (Qfloor (Y / 10) * 10).
Proof.
  unfold div10, np_floor, mul10, py_int.
  rewrite Qfloor_integer, Qceiling_integer. by destruct (Qle_bool _ _).
Qed.

Lemma decade_brackets_year (Y : Q) :
  (inject_Z (Qfloor (Y / 10) * 10) <= Y < inject_Z (Qfloor (Y / 10) * 10) + 10)%Q.
Proof.
  pose proof (Qfloor_le (Y / 10)) as Hlo.
  pose proof (Qlt_floor (Y / 10)) as Hhi.
  rewrite inject_Z_plus in Hhi. rewrite inject_Z_mult.
  assert (Y == (Y / 10) * 10)%Q as HY by (field).
  set (x := (Y / 10)%Q) in *. set (f := inject_Z (Qfloor x)) in *.
  change (inject_Z 10) with (10%Q). change (inject_Z 1) with (1%Q) in Hhi.
  split; lra.
Qed.

Lemma compute_decade_finite parse (row : master_row) (Y : Q) :
  year_of parse row = Some (Fin Y) ->
  compute_decade parse row =
  Ok (let d := Qfloor (Y / 10) * 10 in
      if (d <? MIN_DECADE) || (d >? MAX_DECADE) then None else Some d).
Proof.
  intros Hy. unfold compute_decade. rewrite Hy, decade_of_finite. simpl.
  by destruct (_ || _).
Qed.

Lemma apply_compute_decade_Forall2 parse rows decades :
  apply_compute_decade parse rows = Ok decades <->
  Forall2 (fun row d => compute_decade parse row = Ok d) rows decades.
Proof.
  revert decades. induction rows as [|row rows IH]; intros decades; simpl.
  - split; [intros [= <-]; constructor | by inversion 1].
  - destruct (compute_decade parse row) as [d|e] eqn:Hd; simpl.
    + destruct (apply_compute_decade parse rows) as [ds|e] eqn:Hds; simpl.
      * split.
        -- intros [= <-]. constructor; [done | by apply IH].
        -- inversion 1 as [|? d' ? ds' Hd' Hds']; subst.
           apply IH in Hds'. congruence.
      * split; [done|]. inversion 1 as [|? d' ? ds' Hd' Hds']; subst.
        apply IH in Hds'. discriminate.
    + split; [done|]. inversion 1; congruence.
Qed.

Lemma elem_of_working_table m rows decades (x : derived) :
  x ∈ working_table m rows decades <->
  exists i row d,
    rows !! i = Some row /\ decades !! i = Some (Some d) /\ x = derive m i row d.
Proof.
  unfold working_table. rewrite list_elem_of_omap. split.
  - intros [o [Hin Ho]]. simpl in Ho. subst o.
    apply elem_of_lookup_imap in Hin as (i & [row dec] & Heq & Hz).
    apply lookup_zip_Some in Hz as [Hr Hd]. simpl in Heq.
    destruct dec as [d|]; [|discriminate]. injection Heq as ->.
    by exists i, row, d.
  - intros (i & row & d & Hr & Hd & ->). exists (Some (derive m i row d)).
    split; [|done].
    apply elem_of_lookup_imap. exists i, (row, Some d). split; [done|].
    by apply lookup_zip_Some.
Qed.

Lemma working_table_index parse m rows decades i row :
  apply_compute_decade parse rows = Ok decades ->
  rows !! i = Some row ->
  forall x, x ∈ working_table m rows decades /\ d_index x = i <->
            exists d, compute_decade parse row = Ok (Some d) /\ x = derive m i row d.
Proof.
  intros Happ Hrow x. apply apply_compute_decade_Forall2 in Happ.
  rewrite elem_of_working_table. split.
  - intros [(j & row' & d & Hr & Hd & ->) Hi]. simpl in Hi. subst j.
    exists d. split; [|congruence].
    destruct (Forall2_lookup_l _ _ _ _ _ Happ Hrow) as (dec & Hdec & Hc).
    congruence.
  - intros (d & Hc & ->). split; [|done]. exists i, row, d.
    split; [done|]. split; [|done].
    destruct (Forall2_lookup_l _ _ _ _ _ Happ Hrow) as (dec & Hdec & Hc').
    congruence.
Qed.

(** * The working table, row by row *)

Lemma omap_cons {A B : Type} (f : A -> option B) (x : A) (l : list A) :
  omap f (x :: l) = match f x with Some y => y :: omap f l | None => omap f l end.
Proof. reflexivity. Qed.

(** The keys computed through the index labels are the keys read off the rows. *)
Lemma keys_by_index parse m (pre rows : list master_row) (decades : list (option Z)) :
  Forall2 (fun row d => compute_decade parse row = Ok d) rows decades ->
  let df := omap id (imap (fun i rd => derive m (length pre + i) (fst rd) <$> snd rd)
                          (zip rows decades)) in
  let cs := (fun i => default (PyStr EmptyString) ((classification_std <$> (pre ++ rows)) !! i))
              <$> (d_index <$> df) in
  let ms := (fun i => default (PyStr EmptyString) ((medium_std <$> (pre ++ rows)) !! i))
              <$> (d_index <$> df) in
  zip_with group_key df (zip_with categorize_medium cs ms) = omap (row_key parse m) rows.
Proof.
  intros Hall. cbv zeta. revert pre.
  induction Hall as [|row dec rows decades Hdec Hall IH]; intros pre; [done|].
  specialize (IH (pre ++ [row])). cbv zeta in IH.
  rewrite length_app in IH. simpl length in IH.
  rewrite <- (assoc_L (++) pre [row] rows) in IH. simpl app in IH.
  erewrite (imap_ext _ ((fun i rd => derive m (length pre + i) rd.1 <$> rd.2) ∘ S)) in IH;
    last first.
  { intros i x _. simpl. by replace (length pre + 1 + i)%nat with (length pre + S i)%nat by lia. }
  change (zip (row :: rows) (dec :: decades)) with ((row, dec) :: zip rows decades).
  rewrite imap_cons, !omap_cons.
  assert (row_key parse m row
          = (fun d => group_key (derive m 0 row d)
                        (categorize_medium (classification_std row) (medium_std row)))
              <$> dec) as ->.
  { unfold row_key. rewrite Hdec. by destruct dec. }
  destruct dec as [d|]; simpl.
  - rewrite Nat.add_0_r.
    rewrite !list_lookup_fmap, !lookup_app_r, !Nat.sub_diag by lia. simpl.
    f_equal. exact IH.
  - exact IH.
Qed.

Lemma working_table_keys parse m rows decades :
  apply_compute_decade parse rows = Ok decades ->
  let df := working_table m rows decades in
  zip_with group_key df
    (zip_with categorize_medium
       ((fun i => default (PyStr EmptyString) ((classification_std <$> rows) !! i)) <$> (d_index <$> df))
       ((fun i => default (PyStr EmptyString) ((medium_std <$> rows) !! i)) <$> (d_index <$> df)))
  = omap (row_key parse m) rows.
Proof.
  intros Happ. apply apply_compute_decade_Forall2 in Happ.
  exact (keys_by_index parse m [] rows decades Happ).
Qed.

Lemma working_table_length parse m rows decades :
  apply_compute_decade parse rows = Ok decades ->
  length (working_table m rows decades) = length (omap (row_key parse m) rows).
Proof.
  intros Happ. rewrite <- (working_table_keys parse m rows decades Happ).
  rewrite !length_zip_with, !length_fmap. lia.
Qed.

Lemma row_key_has_decade parse m row :
  is_Some (row_key parse m row) <-> has_decade parse row = true.
Proof.
  unfold row_key, has_decade.
  destruct (compute_decade parse row) as [[d|]|e]; split; try done;
    intros [? ?]; discriminate.
Qed.

Lemma length_omap_row_key parse m rows :
  length (omap (row_key parse m) rows) = length (filter (fun row => has_decade parse row = true) rows).
Proof.
  induction rows as [|row rows IH]; [done|].
  rewrite omap_cons, filter_cons.
  pose proof (row_key_has_decade parse m row) as Hk.
  destruct (row_key parse m row) as [k|].
  - rewrite decide_True by (apply Hk; eauto). simpl. by rewrite IH.
  - rewrite decide_False; [done|]. intros Hd. apply Hk in Hd as [? ?]. discriminate.
Qed.

(** * The parts of the run *)

Lemma bind_eq {A B : Type} (c : prog A) (k : A -> prog B) (st : state) :
  (c ≫= k) st =
  match c st with
  | (st', Next a) => k a st'
  | (st', Return) => (st', Return)
  | (st', Raise e) => (st', Raise e)
  end.
Proof. reflexivity. Qed.

Lemma load_inputs_loaded (w : world) master_df flows_df (st : state) :
  master_loaded w master_df -> flows_loaded w flows_df ->
  load_inputs w st =
  (say st [step_1; step_2],
   Next (master_df, flows_df, bool_decide (is_Some flows_df))).
Proof.
  intros (Hpath & Hread & Hcols) Hflows.
  unfold load_inputs. rewrite bind_eq. cbn [messagebox].
  rewrite bool_decide_eq_false_2 by done.
  rewrite bind_eq. cbn [messagebox]. rewrite bind_eq, Hread. cbn [mret prog_ret].
  assert (filter (fun col => has_column col (master_columns master_df) = false)
            [MASTER_COUNTRY_COL; MASTER_START_YEAR_COL; MASTER_END_YEAR_COL] = []) as Hmiss.
  { apply Forall_cons in Hcols as [H1 Hcols]. apply Forall_cons in Hcols as [H2 Hcols].
    apply Forall_cons in Hcols as [H3 _].
    rewrite !filter_cons, filter_nil. unfold has_column.
    rewrite !decide_False; [done|..]; by rewrite bool_decide_eq_true_2. }
  unfold say. cbn [shown file]. rewrite <- (assoc_L (++)). cbn [app].
  destruct flows_df as [fdf|]; unfold flows_loaded in Hflows; cbn zeta in Hflows.
  - destruct Hflows as [Hne Hrf].
    rewrite (bool_decide_eq_false_2 _ Hne). cbn [negb].
    rewrite bind_eq, Hrf. cbn [mret prog_ret]. rewrite Hmiss.
    rewrite bool_decide_eq_true_2 by done. cbn [negb].
    by rewrite bool_decide_eq_true_2 by eauto.
  - rewrite (bool_decide_eq_true_2 _ Hflows). cbn [negb].
    rewrite bind_eq. cbn [mret prog_ret]. rewrite Hmiss.
    rewrite bool_decide_eq_true_2 by done. cbn [negb].
    rewrite bool_decide_eq_false_2; [done|]. by intros [? ?].
Qed.

Lemma region_mapping_none (st : state) :
  region_mapping false None st = (st, Next ∅).
Proof. reflexivity. Qed.

Lemma region_mapping_columns (flows_df : flows_frame) (st : state) :
  FLOWS_COUNTRY_COL ∈ flows_columns flows_df ->
  FLOWS_REGION_COL ∈ flows_columns flows_df ->
  region_mapping true (Some flows_df) st = (st, Next (build_country_to_region flows_df)).
Proof.
  intros Hc Hr. unfold region_mapping, has_column.
  by rewrite !bool_decide_eq_true_2.
Qed.

Lemma region_mapping_no_columns (flows_df : flows_frame) (st : state) :
  FLOWS_COUNTRY_COL ∉ flows_columns flows_df \/
  FLOWS_REGION_COL ∉ flows_columns flows_df ->
  region_mapping true (Some flows_df) st = (say st [flows_columns_missing], Next ∅).
Proof.
  intros Hmiss. unfold region_mapping, has_column.
  destruct Hmiss as [H|H]; rewrite (bool_decide_eq_false_2 _ H);
    rewrite ?orb_true_r; reflexivity.
Qed.

Lemma working_table_nil parse m rows decades :
  apply_compute_decade parse rows = Ok decades ->
  working_table m rows decades = [] <-> omap (row_key parse m) rows = [].
Proof.
  intros Happ. pose proof (working_table_length parse m rows decades Happ) as Hlen.
  split; intros H; rewrite H in Hlen; simpl in Hlen.
  - by apply nil_length_inv.
  - by apply nil_length_inv.
Qed.

(** [prepare_and_group] in closed form. *)
Lemma prepare_and_group_eq parse m (master_df : master_frame) (st : state) :
  prepare_and_group parse m master_df st =
  match apply_compute_decade parse (master_rows master_df) with
  | Raised e => (st, Raise e)
  | Ok _ =>
      let keys := omap (row_key parse m) (master_rows master_df) in
      if bool_decide (keys = []) then (say st [no_rows_remain], Return)
      else if has_column MASTER_CLASS_COL (master_columns master_df)
              && has_column MASTER_MEDIUM_COL (master_columns master_df)
      then (st, Next (groupby_size keys))
      else (st, Raise AttributeError)
  end.
Proof.
  unfold prepare_and_group. rewrite bind_eq. unfold lift at 1.
  destruct (apply_compute_decade parse (master_rows master_df)) as [decades|e] eqn:Happ;
    [|done].
  cbv zeta.
  pose proof (working_table_nil parse m _ _ Happ) as Hnil.
  pose proof (working_table_keys parse m _ _ Happ) as Hkeys. cbv zeta in Hkeys.
  destruct (decide (omap (row_key parse m) (master_rows master_df) = [])) as [He|Hne].
  - rewrite (bool_decide_eq_true_2 _ He).
    rewrite bool_decide_eq_true_2 by (by apply Hnil). reflexivity.
  - rewrite (bool_decide_eq_false_2 _ Hne).
    rewrite bool_decide_eq_false_2 by (by rewrite Hnil).
    destruct (has_column MASTER_CLASS_COL _); [|reflexivity].
    destruct (has_column MASTER_MEDIUM_COL _).
    + rewrite <- Hkeys. reflexivity.
    + reflexivity.
Qed.

(** * Counting per group *)

Section Counting.
Context {A : Type} `{EqDecision A}.
Implicit Types (x k : A) (l ks : list A).

Lemma occurrences_cons x l k :
  occurrences_of (x :: l) k = ((if decide (x = k) then 1 else 0) + occurrences_of l k)%nat.
Proof.
  unfold occurrences_of. rewrite filter_cons. by destruct (decide (x = k)).
Qed.

Lemma sum_list_fmap_add (f g : A -> nat) ks :
  sum_list ((fun k => f k + g k)%nat <$> ks)
  = (sum_list (f <$> ks) + sum_list (g <$> ks))%nat.
Proof. induction ks as [|k ks IH]; csimpl; lia. Qed.

Lemma sum_indicator_absent x ks :
  x ∉ ks -> sum_list ((fun k => if decide (x = k) then 1 else 0)%nat <$> ks) = 0%nat.
Proof.
  induction ks as [|k ks IH]; intros Hx; csimpl; [done|].
  apply not_elem_of_cons in Hx as [Hne Hx].
  rewrite decide_False by done. by rewrite IH.
Qed.

Lemma sum_indicator_present x ks :
  NoDup ks -> x ∈ ks ->
  sum_list ((fun k => if decide (x = k) then 1 else 0)%nat <$> ks) = 1%nat.
Proof.
  induction 1 as [|k ks Hk Hnd IH]; intros Hx; [by apply elem_of_nil in Hx|].
  csimpl. destruct (decide (x = k)) as [->|Hne].
  - by rewrite sum_indicator_absent.
  - apply elem_of_cons in Hx as [?|Hx]; [done|]. by rewrite IH.
Qed.

(** Over a duplicate-free list of keys that covers [l], the group sizes add
    up to the length of [l]. *)
Lemma sum_occurrences l ks :
  NoDup ks -> (forall x, x ∈ l -> x ∈ ks) ->
  sum_list (occurrences_of l <$> ks) = length l.
Proof.
  intros Hnd. induction l as [|x l IH]; intros Hcover.
  - unfold occurrences_of. rewrite (sum_list_fmap_same 0%nat); [simpl; lia|].
    by apply Forall_forall.
  - erewrite (list_fmap_ext (occurrences_of (x :: l))); last first.
    { intros i k _. apply occurrences_cons. }
    rewrite sum_list_fmap_add, sum_indicator_present, IH; [done| |done|].
    + intros y Hy. apply Hcover. by right.
    + apply Hcover. by left.
Qed.
End Counting.

Lemma key_of_groupby_size (keys : list key) :
  key_of <$> groupby_size keys = merge_sort key_le (remove_dups keys).
Proof.
  unfold groupby_size. rewrite <- list_fmap_compose.
  rewrite <- (list_fmap_id (merge_sort _ _)) at 2.
  apply list_fmap_ext. intros i [[[r c] d] g] _. reflexivity.
Qed.

Lemma n_objects_groupby_size (keys : list key) :
  n_objects <$> groupby_size keys
  = occurrences_of keys <$> merge_sort key_le (remove_dups keys).
Proof.
  unfold groupby_size. rewrite <- list_fmap_compose.
  apply list_fmap_ext. intros i [[[r c] d] g] _. reflexivity.
Qed.

Lemma NoDup_groupby_size (keys : list key) : NoDup (key_of <$> groupby_size keys).
Proof.
  rewrite key_of_groupby_size, merge_sort_Permutation. apply NoDup_remove_dups.
Qed.

Lemma sum_groupby_size (keys : list key) :
  sum_list (n_objects <$> groupby_size keys) = length keys.
Proof.
  rewrite n_objects_groupby_size. apply sum_occurrences.
  - rewrite merge_sort_Permutation. apply NoDup_remove_dups.
  - intros k Hk. by rewrite merge_sort_Permutation, elem_of_remove_dups.
Qed.

Lemma elem_of_groupby_size (keys : list key) (r : agg_row) :
  r ∈ groupby_size keys ->
  key_of r ∈ keys /\ n_objects r = occurrences_of keys (key_of r).
Proof.
  unfold groupby_size. intros Hr.
  apply list_elem_of_fmap in Hr as ([[[g c] d] mg] & -> & Hk).
  rewrite merge_sort_Permutation, elem_of_remove_dups in Hk.
  split; [exact Hk | reflexivity].
Qed.

Lemma groupby_size_nil (keys : list key) : groupby_size keys = [] <-> keys = [].
Proof.
  split; [|by intros ->].
  intros Hnil. pose proof (sum_groupby_size keys) as Hsum.
  rewrite Hnil in Hsum. simpl in Hsum. by apply nil_length_inv.
Qed.

Lemma key_le_total (a b : key) : key_le a b \/ key_le b a.
Proof.
  destruct a as [[[r1 c1] d1] m1], b as [[[r2 c2] d2] m2].
  unfold key_le, key_leb.
  rewrite (String.compare_antisym r2 r1), (String.compare_antisym c2 c1),
    (Z.compare_antisym d1 d2).
  destruct (String.compare r1 r2); simpl; [|by left|by right].
  destruct (String.compare c1 c2); simpl; [|by left|by right].
  destruct (d1 ?= d2); simpl; [|by left|by right].
  apply String.leb_total.
Qed.


(** [save_grouped] in closed form. *)
Lemma save_grouped_eq (w : world) (grouped : list agg_row) (st : state) :
  save_grouped w grouped st =
  let out_path := save_file w "Save counts_by_country_decade_medium.csv"
                    "counts_by_country_decade_medium.csv" in
  if bool_decide (grouped = []) then (say st [no_rows_produced], Return)
  else if bool_decide (out_path = EmptyString)
  then (say st [step_3; showwarning "Cancelled" "No output path selected."], Return)
  else if can_write w out_path
  then ({| shown := shown st ++ [step_3; showinfo "Done" "Wrote rows to:"];
           file := Some (out_path, grouped) |}, Next tt)
  else (say st [step_3; showerror "Error" "Could not write CSV:"], Return).
Proof.
  unfold save_grouped. cbv zeta.
  destruct (bool_decide (grouped = [])); [reflexivity|].
  rewrite bind_eq. cbn [messagebox].
  destruct (bool_decide (_ = EmptyString)).
  { rewrite bind_eq. cbn [messagebox py_return]. unfold say. cbn [shown file].
    by rewrite <- (assoc_L (++)). }
  rewrite bind_eq. unfold to_csv. cbn [shown file].
  destruct (can_write w _).
  - unfold messagebox. cbn [shown file]. by rewrite <- (assoc_L (++)).
  - rewrite bind_eq. cbn [messagebox py_return]. unfold say. cbn [shown file].
    by rewrite <- (assoc_L (++)).
Qed.

Lemma region_mapping_total (flows_df : option flows_frame) (st : state) :
  exists ds m,
    region_mapping (bool_decide (is_Some flows_df)) flows_df st = (say st ds, Next m).
Proof.
  destruct flows_df as [fdf|].
  - rewrite bool_decide_eq_true_2 by eauto. unfold region_mapping.
    destruct (_ || _).
    + by exists [flows_columns_missing], ∅.
    + exists [], (build_country_to_region fdf). unfold say.
      rewrite app_nil_r. by destruct st.
  - rewrite bool_decide_eq_false_2 by (by intros [? ?]).
    exists [], ∅. unfold say. rewrite app_nil_r. by destruct st.
Qed.

(** Either the loading part ends the run, nothing written, or both tables are
    loaded. *)
Lemma load_inputs_cases (w : world) (st : state) :
  (exists st', load_inputs w st = (st', Return) /\ file st' = file st)
  \/ (exists master_df flows_df, master_loaded w master_df /\ flows_loaded w flows_df).
Proof.
  destruct (decide (pick_file w "Select master objects CSV" = EmptyString)) as [Hm|Hm].
  { left. unfold load_inputs. rewrite bind_eq. cbn [messagebox].
    rewrite (bool_decide_eq_true_2 _ Hm). eexists. split; reflexivity. }
  destruct (read_csv_master w (pick_file w "Select master objects CSV"))
    as [mdf|] eqn:Hread.
  2: { left. unfold load_inputs. rewrite bind_eq. cbn [messagebox].
       rewrite (bool_decide_eq_false_2 _ Hm), bind_eq. cbn [messagebox].
       rewrite bind_eq, Hread. eexists. split; reflexivity. }
  assert (exists fdf, flows_loaded w fdf \/
            (pick_file w "Select flows_country_to_museum.csv" <> EmptyString /\
             read_csv_flows w (pick_file w "Select flows_country_to_museum.csv") = None))
    as [fdf [Hf|[Hf Hrf]]].
  { unfold flows_loaded.
    destruct (decide (pick_file w "Select flows_country_to_museum.csv" = EmptyString)) as [Hf|Hf].
    - exists None. by left.
    - destruct (read_csv_flows w _) as [fdf|] eqn:Hrf.
      + exists (Some fdf). by left.
      + exists None. by right. }
  2: { left. unfold load_inputs. rewrite bind_eq. cbn [messagebox].
       rewrite (bool_decide_eq_false_2 _ Hm), bind_eq. cbn [messagebox].
       rewrite bind_eq, Hread. cbn [mret prog_ret].
       rewrite (bool_decide_eq_false_2 _ Hf). cbn [negb].
       rewrite bind_eq, Hrf. eexists. split; reflexivity. }
  destruct (decide (Forall (fun col => col ∈ master_columns mdf)
              [MASTER_COUNTRY_COL; MASTER_START_YEAR_COL; MASTER_END_YEAR_COL]))
    as [Hcols|Hcols].
  { right. by exists mdf, fdf. }
  left.
  assert (filter (fun col => has_column col (master_columns mdf) = false)
            [MASTER_COUNTRY_COL; MASTER_START_YEAR_COL; MASTER_END_YEAR_COL] <> [])
    as Hmiss.
  { intros Hnil. apply Hcols. apply Forall_forall. intros col Hcol.
    destruct (decide (col ∈ master_columns mdf)) as [|Hno]; [done|].
    assert (col ∈ filter (fun col => has_column col (master_columns mdf) = false)
              [MASTER_COUNTRY_COL; MASTER_START_YEAR_COL; MASTER_END_YEAR_COL]) as Hin.
    { apply list_elem_of_filter. split; [|done]. unfold has_column.
      by rewrite bool_decide_eq_false_2. }
    rewrite Hnil in Hin. by apply elem_of_nil in Hin. }
  unfold load_inputs. rewrite bind_eq. cbn [messagebox].
  rewrite (bool_decide_eq_false_2 _ Hm), bind_eq. cbn [messagebox].
  rewrite bind_eq, Hread. cbn [mret prog_ret].
  destruct fdf as [fdf|]; unfold flows_loaded in Hf; cbv zeta in Hf.
  - destruct Hf as [Hf Hrf]. rewrite (bool_decide_eq_false_2 _ Hf). cbn [negb].
    rewrite bind_eq, Hrf. cbn [mret prog_ret].
    rewrite (bool_decide_eq_false_2 _ Hmiss). cbn [negb].
    eexists. split; reflexivity.
  - rewrite (bool_decide_eq_true_2 _ Hf). cbn [negb].
    rewrite bind_eq. cbn [mret prog_ret].
    rewrite (bool_decide_eq_false_2 _ Hmiss). cbn [negb].
    eexists. split; reflexivity.
Qed.

(** The run once both tables are loaded. *)
Lemma run_loaded parse (w : world) master_df flows_df :
  master_loaded w master_df -> flows_loaded w flows_df ->
  run parse w =
  (region_mapping (bool_decide (is_Some flows_df)) flows_df ≫= fun m =>
   prepare_and_group parse m master_df ≫= save_grouped w)
    {| shown := [step_1; step_2]; file := None |}.
Proof.
  intros Hm Hf. unfold run, main. rewrite bind_eq.
  by rewrite (load_inputs_loaded w master_df flows_df _ Hm Hf).
Qed.

(** * Region mapping *)

Lemma elem_of_dropna (rows : list flows_row) (c g : string) :
  (c, g) ∈ dropna rows <->
  {| origin_country := PyStr c; flows_region := PyStr g |} ∈ rows.
Proof.
  unfold dropna. rewrite list_elem_of_omap. split.
  - intros ([[|c'] [|g']] & Hin & Heq); simpl in Heq; try discriminate.
    by injection Heq as -> ->.
  - intros Hin. eexists. split; [exact Hin | reflexivity].
Qed.

Lemma dropna_complete (rows : list flows_row) :
  dropna (filter complete rows) = dropna rows.
Proof.
  unfold dropna. induction rows as [|[c g] rows IH]; [done|].
  rewrite filter_cons. destruct (decide (complete _)) as [Hc|Hc].
  - rewrite !omap_cons. by rewrite IH.
  - rewrite omap_cons, IH. simpl.
    destruct c as [|c], g as [|g]; try done.
    exfalso. apply Hc. by split.
Qed.

Lemma occurrences_regions_of (rows : list flows_row) (c g : string) :
  occurrences_of (regions_of c (dropna rows)) g
  = length (filter (fun r => origin_country r = PyStr c /\ flows_region r = PyStr g) rows).
Proof.
  unfold occurrences_of, regions_of, dropna.
  induction rows as [|[c' g'] rows IH]; [done|].
  rewrite omap_cons, (filter_cons _ {| origin_country := c' |}). simpl.
  destruct c' as [|c'], g' as [|g'];
    try (rewrite decide_False by (intros [? ?]; discriminate); exact IH).
  rewrite filter_cons. simpl.
  destruct (decide (c' = c)) as [->|Hc].
  - csimpl. rewrite filter_cons.
    destruct (decide (g' = g)) as [->|Hg].
    + rewrite decide_True by done. simpl. by rewrite IH.
    + rewrite decide_False by (intros [_ [=]]; done). exact IH.
  - rewrite decide_False by (intros [[=] _]; done). exact IH.
Qed.

Lemma elem_of_unique_values (s : list string) (v : string) :
  v ∈ unique_values s <-> v ∈ s.
Proof.
  unfold unique_values. by rewrite elem_of_reverse, elem_of_remove_dups, elem_of_reverse.
Qed.

Lemma elem_of_value_counts (s : list string) (v : string) (n : nat) :
  (v, n) ∈ value_counts s <-> v ∈ s /\ n = occurrences_of s v.
Proof.
  unfold value_counts. rewrite list_elem_of_fmap. split.
  - intros (v' & [= -> ->] & Hin). by rewrite elem_of_unique_values in Hin.
  - intros [Hin ->]. exists v. by rewrite elem_of_unique_values.
Qed.

(** Among regions of equal count the one met first wins. *)
Example idxmax_tie_first :
  idxmax (value_counts ["Europe"; "Asia"; "Asia"; "Europe"]) = Some "Europe"
  /\ idxmax (value_counts ["Asia"; "Europe"; "Europe"; "Asia"]) = Some "Asia".
Proof. split; reflexivity. Qed.

Lemma occurrences_pos {A : Type} `{EqDecision A} (l : list A) (x : A) :
  (0 < occurrences_of l x)%nat <-> x ∈ l.
Proof.
  unfold occurrences_of. split.
  - intros Hpos. destruct (filter _ l) as [|y l'] eqn:Hf; [simpl in Hpos; lia|].
    assert (y ∈ filter (fun y => y = x) l) as Hy by (rewrite Hf; by left).
    apply list_elem_of_filter in Hy as [-> Hy]. done.
  - intros Hin.
    assert (x ∈ filter (fun y => y = x) l) as Hx by (by apply list_elem_of_filter).
    destruct (filter _ l); [by apply elem_of_nil in Hx | simpl; lia].
Qed.

(** [idxmax] of a series of counts returns a label whose count is the largest. *)
Lemma idxmax_Some (counts : list (string * nat)) (v : string) :
  idxmax counts = Some v ->
  exists n, (v, n) ∈ counts /\ forall v' n', (v', n') ∈ counts -> (n' <= n)%nat.
Proof.
  unfold idxmax. intros Hidx.
  destruct (find _ counts) as [[v0 n]|] eqn:Hfind; [|discriminate].
  injection Hidx as ->. apply find_some in Hfind as [Hin Htop]. simpl in Htop.
  apply Nat.leb_le in Htop. exists n. split; [by apply list_elem_of_In|].
  intros v' n' Hin'.
  assert (n' ∈ snd <$> counts) as Hn'.
  { apply list_elem_of_fmap. by exists (v', n'). }
  apply max_list_elem_of_le in Hn'. lia.
Qed.

Lemma idxmax_is_Some (counts : list (string * nat)) :
  counts <> [] -> is_Some (idxmax counts).
Proof.
  intros Hne. unfold idxmax.
  assert (max_list (snd <$> counts) ∈ snd <$> counts) as Htop.
  { apply max_list_elem_of. by destruct counts. }
  apply list_elem_of_fmap in Htop as ([v n] & Hn & Hin). simpl in Hn.
  destruct (find _ counts) as [p|] eqn:Hfind; [by eexists|].
  apply list_elem_of_In in Hin.
  pose proof (find_none _ _ Hfind _ Hin) as Hno. simpl in Hno.
  apply Nat.leb_gt in Hno. lia.
Qed.

Lemma elem_of_country_region (flows_clean : list (string * string)) (c g : string) :
  (c, g) ∈ country_region flows_clean <->
  c ∈ fst <$> flows_clean /\ idxmax (value_counts (regions_of c flows_clean)) = Some g.
Proof.
  unfold country_region. rewrite list_elem_of_omap. split.
  - intros (c' & Hin & Heq). rewrite elem_of_remove_dups in Hin.
    destruct (idxmax _) as [g'|] eqn:Hidx; [|discriminate].
    simpl in Heq. injection Heq as -> ->. done.
  - intros [Hin Hidx]. exists c. rewrite elem_of_remove_dups. split; [done|].
    by rewrite Hidx.
Qed.

Lemma NoDup_country_region (flows_clean : list (string * string)) :
  NoDup (fst <$> country_region flows_clean).
Proof.
  unfold country_region.
  assert (forall l : list string, NoDup l ->
            NoDup (fst <$> omap (fun c => (fun g => (c, g)) <$>
                     idxmax (value_counts (regions_of c flows_clean))) l)) as Hgen.
  { induction 1 as [|c l Hc Hnd IH]; [constructor|].
    rewrite omap_cons. destruct (idxmax _) as [g|]; [|exact IH].
    csimpl. constructor; [|exact IH].
    intros Hin. apply Hc. apply list_elem_of_fmap in Hin as ([c' g'] & -> & Hin).
    apply list_elem_of_omap in Hin as (c'' & Hc'' & Heq).
    destruct (idxmax _); [|discriminate]. simpl in Heq. by injection Heq as -> ->. }
  apply Hgen, NoDup_remove_dups.
Qed.

Lemma build_country_to_region_lookup (flows_df : flows_frame) (c g : string) :
  build_country_to_region flows_df !! c = Some g <->
  (c, g) ∈ country_region (dropna (flows_rows flows_df)).
Proof.
  unfold build_country_to_region. symmetry.
  apply elem_of_list_to_map, NoDup_country_region.
Qed.

Lemma votes_regions_of (flows_df : flows_frame) (c g : string) :
  occurrences_of (regions_of c (dropna (flows_rows flows_df))) g = votes flows_df c g.
Proof. apply occurrences_regions_of. Qed.

Lemma elem_of_regions_of (flows_clean : list (string * string)) (c g : string) :
  g ∈ regions_of c flows_clean <-> (c, g) ∈ flows_clean.
Proof.
  unfold regions_of. rewrite list_elem_of_fmap. split.
  - intros ([c' g'] & -> & Hin). apply list_elem_of_filter in Hin as [Hc Hin].
    simpl in Hc. by subst c'.
  - intros Hin. exists (c, g). split; [done|]. by apply list_elem_of_filter.
Qed.

(** The entry of a country is a region with the most votes. *)
Lemma build_country_to_region_Some (flows_df : flows_frame) (c g : string) :
  build_country_to_region flows_df !! c = Some g ->
  (0 < votes flows_df c g)%nat /\
  forall g', (votes flows_df c g' <= votes flows_df c g)%nat.
Proof.
  rewrite build_country_to_region_lookup, elem_of_country_region.
  intros [_ Hidx]. apply idxmax_Some in Hidx as (n & Hin & Hmax).
  apply elem_of_value_counts in Hin as [Hg ->].
  split.
  - rewrite <- votes_regions_of. by apply occurrences_pos.
  - intros g'. rewrite <- !votes_regions_of.
    destruct (decide (g' ∈ regions_of c (dropna (flows_rows flows_df)))) as [Hg'|Hg'].
    + apply (Hmax g'). by apply elem_of_value_counts.
    + assert (occurrences_of (regions_of c (dropna (flows_rows flows_df))) g' = 0%nat) as ->;
        [|lia].
      destruct (occurrences_of _ g') eqn:Ho; [done|].
      exfalso. apply Hg'. apply occurrences_pos. lia.
Qed.

(** A country has an entry as soon as one complete row names it. *)
Lemma build_country_to_region_is_Some (flows_df : flows_frame) (c : string) :
  is_Some (build_country_to_region flows_df !! c) <->
  exists g, (0 < votes flows_df c g)%nat.
Proof.
  split.
  - intros [g Hg]. exists g. by apply build_country_to_region_Some.
  - intros [g Hg]. rewrite <- votes_regions_of in Hg. apply occurrences_pos in Hg.
    assert (is_Some (idxmax (value_counts (regions_of c (dropna (flows_rows flows_df))))))
      as [g' Hg'].
    { apply idxmax_is_Some. intros Hnil.
      assert ((g, occurrences_of (regions_of c (dropna (flows_rows flows_df))) g)
                ∈ value_counts (regions_of c (dropna (flows_rows flows_df)))) as Hin
          by (by apply elem_of_value_counts).
      rewrite Hnil in Hin. by apply elem_of_nil in Hin. }
    exists g'. apply build_country_to_region_lookup, elem_of_country_region.
    split; [|done]. apply elem_of_regions_of in Hg.
    apply list_elem_of_fmap. by exists (c, g).
Qed.

Lemma region_of_None (m : gmap string string) (c : string) :
  m !! c = None -> region_of m c = "Unknown".
Proof. intros Hc. unfold region_of. rewrite Hc. by destruct (bool_decide _). Qed.

Lemma region_of_Some (m : gmap string string) (c g : string) :
  m !! c = Some g -> region_of m c = g.
Proof.
  intros Hc. unfold region_of. rewrite Hc.
  rewrite bool_decide_eq_false_2; [done|]. intros ->. by rewrite lookup_empty in Hc.
Qed.

(** * The decade calculator *)

(** C2. For a record whose year is the finite number [Y], the decade is
    [floor(Y / 10) * 10], the multiple-of-ten integer [d] with
    [d <= Y < d + 10]; [compute_decade] returns it when it lies in
    [1400, 2020] and nan otherwise; and the record is missing from the
    working table exactly when [d < 1400] or [d > 2020]. *)
Theorem compute_decade_floor_and_range parse (row : master_row) (Y : Q) :
  year_of parse row = Some (Fin Y) ->
  let d := Qfloor (Y / 10) * 10 in
  (inject_Z d <= Y < inject_Z d + 10)%Q
  /\ compute_decade parse row
     = Ok (if (d <? 1400) || (d >? 2020) then None else Some d)
  /\ forall m rows decades i,
       apply_compute_decade parse rows = Ok decades -> rows !! i = Some row ->
       ((forall x, x ∈ working_table m rows decades -> d_index x <> i)
        <-> d < 1400 \/ d > 2020)
       /\ (forall x, x ∈ working_table m rows decades -> d_index x = i ->
             d_decade x = d).
Proof.
  intros Hy d. split; [apply decade_brackets_year|].
  pose proof (compute_decade_finite parse row Y Hy) as Hc. cbv zeta in Hc.
  fold d in Hc. unfold MIN_DECADE, MAX_DECADE in Hc.
  split; [exact Hc|].
  intros m rows decades i Happ Hrow.
  pose proof (working_table_index parse m rows decades i row Happ Hrow) as Hidx.
  split; [split|].
  - intros Habsent.
    destruct ((d <? 1400) || (d >? 2020)) eqn:Hrange.
    + apply orb_true_iff in Hrange as [H|H]; [left | right]; lia.
    + exfalso. apply (Habsent (derive m i row d)); [|done].
      apply (Hidx (derive m i row d)). by exists d.
  - intros Hout x Hx Hi.
    destruct (proj1 (Hidx x) (conj Hx Hi)) as (d' & Hd' & _).
    rewrite Hc in Hd'.
    assert ((d <? 1400) || (d >? 2020) = true) as Hrange.
    { apply orb_true_iff. destruct Hout; [left | right]; lia. }
    rewrite Hrange in Hd'. discriminate.
  - intros x Hx Hi.
    destruct (proj1 (Hidx x) (conj Hx Hi)) as (d' & Hd' & ->).
    rewrite Hc in Hd'. destruct (_ || _); [discriminate|].
    by injection Hd' as ->.
Qed.

Lemma compute_decade_floor_and_range_witness :
  year_of decimal_numeral (object_row "France" 1875 "Painting" "oil on canvas")
  = Some (Fin (inject_Z 1875))
  /\ compute_decade decimal_numeral (object_row "France" 1875 "Painting" "oil on canvas")
     = Ok (Some 1870).
Proof.
  split; [reflexivity|].
  exact (proj1 (proj2 (compute_decade_floor_and_range decimal_numeral
                         (object_row "France" 1875 "Painting" "oil on canvas")
                         (inject_Z 1875) eq_refl))).
Defined.

Lemma apply_compute_decade_drop parse (before after : list master_row) (row : master_row) :
  compute_decade parse row = Ok None ->
  match apply_compute_decade parse (before ++ after) with
  | Ok _ => exists ds, apply_compute_decade parse (before ++ row :: after) = Ok ds
  | Raised e => apply_compute_decade parse (before ++ row :: after) = Raised e
  end.
Proof.
  intros Hrow. induction before as [|r before IH]; simpl.
  - rewrite Hrow. simpl. destruct (apply_compute_decade parse after); simpl; eauto.
  - destruct (compute_decade parse r); simpl; [|done].
    destruct (apply_compute_decade parse (before ++ after)); simpl.
    + destruct IH as [ds ->]. simpl. eauto.
    + by rewrite IH.
Qed.

(** A record without a decade leaves the grouped table as it is without it. *)
Lemma prepare_and_group_drop parse m cols (before after : list master_row)
    (row : master_row) (st : state) :
  compute_decade parse row = Ok None ->
  prepare_and_group parse m
    {| master_columns := cols; master_rows := before ++ row :: after |} st
  = prepare_and_group parse m
      {| master_columns := cols; master_rows := before ++ after |} st.
Proof.
  intros Hrow. rewrite !prepare_and_group_eq. cbn [master_rows master_columns].
  assert (omap (row_key parse m) (before ++ row :: after)
          = omap (row_key parse m) (before ++ after)) as ->.
  { rewrite !omap_app, omap_cons. unfold row_key at 2. by rewrite Hrow. }
  pose proof (apply_compute_decade_drop parse before after row Hrow) as Hdrop.
  destruct (apply_compute_decade parse (before ++ after)).
  - by destruct Hdrop as [ds ->].
  - by rewrite Hdrop.
Qed.

(** C3. The decade is computed from [start_year] when that is a number,
    whatever [end_year] holds; when [start_year] is missing or no number, it
    is computed from [end_year]: in both cases a finite year [Y] gives
    [floor(Y / 10) * 10] if that lies in [1400, 2020] and nan otherwise, and
    an infinite one makes [int] raise. When both are missing or no number the
    decade is nan, the record is not in the working table, and the grouped
    table is the one obtained without the record. *)
Theorem compute_decade_year_fallback parse (row : master_row) :
  let start := to_numeric parse (creation_start_year_std row) in
  let end_ := to_numeric parse (creation_end_year_std row) in
  let decade_of (Y : Q) : option Z :=
    let d := Qfloor (Y / 10) * 10 in
    if (d <? 1400) || (d >? 2020) then None else Some d in
  (forall Y, start = Some (Fin Y) -> compute_decade parse row = Ok (decade_of Y))
  /\ (forall y, start = Some y -> infinite y ->
                compute_decade parse row = Raised OverflowError)
  /\ (forall Y, start = None -> end_ = Some (Fin Y) ->
                compute_decade parse row = Ok (decade_of Y))
  /\ (forall y, start = None -> end_ = Some y -> infinite y ->
                compute_decade parse row = Raised OverflowError)
  /\ (forall y, start = Some y -> year_of parse row = Some y)
  /\ (start = None -> year_of parse row = end_)
  /\ (start = None -> end_ = None ->
      compute_decade parse row = Ok None
      /\ (forall m rows decades i,
            apply_compute_decade parse rows = Ok decades -> rows !! i = Some row ->
            forall x, x ∈ working_table m rows decades -> d_index x <> i)
      /\ (forall m cols before after st,
            prepare_and_group parse m
              {| master_columns := cols; master_rows := before ++ row :: after |} st
            = prepare_and_group parse m
                {| master_columns := cols; master_rows := before ++ after |} st)).
Proof.
  intros start end_ decade_of.
  assert (forall y, start = Some y -> year_of parse row = Some y) as Hfirst.
  { intros y Hs. unfold year_of. fold start. rewrite Hs.
    by rewrite bool_decide_eq_false_2. }
  assert (start = None -> year_of parse row = end_) as Hsecond.
  { intros Hs. unfold year_of. fold start. rewrite Hs.
    by rewrite bool_decide_eq_true_2. }
  assert (forall Y, year_of parse row = Some (Fin Y) ->
                    compute_decade parse row = Ok (decade_of Y)) as Hfinite.
  { intros Y Hy. by rewrite (compute_decade_finite parse row Y Hy). }
  assert (forall y, year_of parse row = Some y -> infinite y ->
                    compute_decade parse row = Raised OverflowError) as Hinfinite.
  { intros y Hy Hinf. unfold compute_decade. rewrite Hy.
    by destruct Hinf as [-> | ->]. }
  split; [intros Y Hs; apply Hfinite; by apply Hfirst|].
  split; [intros y Hs; apply Hinfinite; by apply Hfirst|].
  split; [intros Y Hs He; apply Hfinite; by rewrite (Hsecond Hs)|].
  split; [intros y Hs He; apply Hinfinite; by rewrite (Hsecond Hs)|].
  split; [exact Hfirst|]. split; [exact Hsecond|].
  intros Hs He.
  assert (compute_decade parse row = Ok None) as Hnan.
  { unfold compute_decade. by rewrite (Hsecond Hs), He. }
  split; [exact Hnan|]. split.
  - intros m rows decades i Happ Hrow x Hx Hi.
    destruct (proj1 (working_table_index parse m rows decades i row Happ Hrow x)
                (conj Hx Hi)) as (d & Hd & _).
    congruence.
  - intros m cols before after st. by apply prepare_and_group_drop.
Qed.

Lemma compute_decade_year_fallback_witness :
  compute_decade decimal_numeral row_early_start = Ok None
  /\ compute_decade decimal_numeral row_without_country = Ok (Some 1510)
  /\ compute_decade decimal_numeral row_without_years = Ok None.
Proof.
  split; [|split].
  - exact (proj1 (compute_decade_year_fallback decimal_numeral row_early_start)
             (inject_Z 1390) eq_refl).
  - exact (proj1 (proj2 (proj2 (compute_decade_year_fallback decimal_numeral
                                  row_without_country)))
             (inject_Z 1512) eq_refl eq_refl).
  - destruct (compute_decade_year_fallback decimal_numeral row_without_years)
      as (_ & _ & _ & _ & _ & _ & Hboth).
    exact (proj1 (Hboth eq_refl eq_refl)).
Defined.

(** * The region resolver *)

(** C4. With both expected columns in the lookup table, the region
    mapping is the dictionary built from the table; rows with a missing
    country or region do not bear on it; a country has an entry exactly when a
    complete row names it, and the entry is a region named by the most rows
    of that country; a country with an entry resolves to it, any other
    country to Unknown. France with Europe, Europe, Asia resolves to Europe. *)
Theorem region_resolver_majority (flows_df : flows_frame) :
  FLOWS_COUNTRY_COL ∈ flows_columns flows_df ->
  FLOWS_REGION_COL ∈ flows_columns flows_df ->
  let m := build_country_to_region flows_df in
  (forall st, region_mapping true (Some flows_df) st = (st, Next m))
  /\ build_country_to_region
       {| flows_columns := flows_columns flows_df;
          flows_rows := filter complete (flows_rows flows_df) |} = m
  /\ (forall c, is_Some (m !! c) <-> exists g, (0 < votes flows_df c g)%nat)
  /\ (forall c g, m !! c = Some g ->
        (0 < votes flows_df c g)%nat
        /\ (forall g', (votes flows_df c g' <= votes flows_df c g)%nat)
        /\ region_of m c = g)
  /\ (forall c, m !! c = None -> region_of m c = "Unknown")
  /\ region_of (build_country_to_region example_flows) "France" = "Europe".
Proof.
  intros Hc Hr m. split; [intros st; by apply region_mapping_columns|].
  split.
  { unfold m, build_country_to_region. cbn [flows_rows]. by rewrite dropna_complete. }
  split; [apply build_country_to_region_is_Some|].
  split.
  { intros c g Hg. destruct (build_country_to_region_Some flows_df c g Hg) as [Hpos Hmax].
    split; [done|]. split; [done|]. by apply region_of_Some. }
  split; [apply region_of_None|].
  by vm_compute.
Qed.

Lemma region_resolver_majority_witness :
  FLOWS_COUNTRY_COL ∈ flows_columns example_flows
  /\ FLOWS_REGION_COL ∈ flows_columns example_flows
  /\ build_country_to_region example_flows !! "France" = Some "Europe"
  /\ (votes example_flows "France" "Asia" <= votes example_flows "France" "Europe")%nat.
Proof.
  assert (FLOWS_COUNTRY_COL ∈ flows_columns example_flows) as Hc by (by left).
  assert (FLOWS_REGION_COL ∈ flows_columns example_flows) as Hr by (right; by left).
  split; [exact Hc|]. split; [exact Hr|].
  destruct (region_resolver_majority example_flows Hc Hr) as (_ & _ & _ & Hmax & _).
  assert (build_country_to_region example_flows !! "France" = Some "Europe") as Hf
    by (by vm_compute).
  split; [exact Hf|].
  destruct (Hmax "France" "Europe" Hf) as (_ & Hle & _). exact (Hle "Asia").
Defined.

(** * The aggregate *)

Lemma run_written parse (w : world) (st : state) (fl : flow unit)
    (path : string) (rows : list agg_row) :
  run parse w = (st, fl) -> file st = Some (path, rows) ->
  exists master_df flows_df m,
    master_loaded w master_df /\ flows_loaded w flows_df /\
    has_column MASTER_CLASS_COL (master_columns master_df) = true /\
    has_column MASTER_MEDIUM_COL (master_columns master_df) = true /\
    rows = groupby_size (omap (row_key parse m) (master_rows master_df)).
Proof.
  intros Hrun Hfile.
  destruct (load_inputs_cases w {| shown := []; file := None |})
    as [(st' & Hload & Hst')|(mdf & fdf & Hm & Hf)].
  { unfold run, main in Hrun. rewrite bind_eq, Hload in Hrun.
    injection Hrun as <- <-. rewrite Hst' in Hfile. discriminate. }
  exists mdf, fdf.
  rewrite (run_loaded parse w mdf fdf Hm Hf), bind_eq in Hrun.
  destruct (region_mapping_total fdf {| shown := [step_1; step_2]; file := None |})
    as (ds & m & Hrm).
  rewrite Hrm, bind_eq, prepare_and_group_eq in Hrun. exists m.
  destruct (apply_compute_decade parse (master_rows mdf));
    [|injection Hrun as <- <-; discriminate].
  cbv zeta in Hrun.
  destruct (bool_decide (omap (row_key parse m) (master_rows mdf) = []));
    [injection Hrun as <- <-; discriminate|].
  destruct (has_column MASTER_CLASS_COL (master_columns mdf));
    [|injection Hrun as <- <-; discriminate].
  destruct (has_column MASTER_MEDIUM_COL (master_columns mdf));
    [|injection Hrun as <- <-; discriminate].
  cbn [andb] in Hrun. rewrite save_grouped_eq in Hrun. cbv zeta in Hrun.
  destruct (bool_decide (groupby_size _ = []));
    [injection Hrun as <- <-; discriminate|].
  destruct (bool_decide (save_file w _ _ = EmptyString));
    [injection Hrun as <- <-; discriminate|].
  destruct (can_write w _); [|injection Hrun as <- <-; discriminate].
  injection Hrun as <- <-. cbn [file] in Hfile. injection Hfile as <- <-.
  done.
Qed.

(** C5. In every written output the [n_objects] add up to the number of
    master records for which a decade was computed, and no two rows have the
    same (region, country, decade, medium_group). *)
Theorem aggregate_sum_and_distinct_keys parse (w : world) (st : state)
    (fl : flow unit) (path : string) (rows : list agg_row) :
  run parse w = (st, fl) -> file st = Some (path, rows) ->
  NoDup (key_of <$> rows)
  /\ exists master_df,
       read_csv_master w (pick_file w "Select master objects CSV") = Some master_df
       /\ sum_list (n_objects <$> rows)
          = length (filter (fun row => has_decade parse row = true)
                           (master_rows master_df)).
Proof.
  intros Hrun Hfile.
  destruct (run_written parse w st fl path rows Hrun Hfile)
    as (mdf & fdf & m & (_ & Hread & _) & _ & _ & _ & ->).
  split; [apply NoDup_groupby_size|].
  exists mdf. split; [exact Hread|].
  rewrite sum_groupby_size. apply length_omap_row_key.
Qed.

Lemma aggregate_sum_and_distinct_keys_witness :
  exists st path rows,
    run decimal_numeral example_world = (st, Next tt)
    /\ file st = Some (path, rows)
    /\ NoDup (key_of <$> rows)
    /\ sum_list (n_objects <$> rows) = 3%nat.
Proof.
  destruct (run decimal_numeral example_world) as [st fl] eqn:Hrun.
  assert (fl = Next tt /\ exists path rows, file st = Some (path, rows)) as (-> & path & rows & Hfile).
  { vm_compute in Hrun. injection Hrun as <- <-. split; [done|]. by eexists _, _. }
  exists st, path, rows. split; [done|]. split; [done|].
  destruct (aggregate_sum_and_distinct_keys decimal_numeral example_world st (Next tt)
              path rows Hrun Hfile) as (Hnd & mdf & Hread & Hsum).
  split; [exact Hnd|].
  vm_compute in Hread. injection Hread as <-. rewrite Hsum. by vm_compute.
Defined.

(** The end-to-end example of the specification. *)
Example end_to_end :
  file (run decimal_numeral example_world).1
  = Some ("counts_by_country_decade_medium.csv",
          [ {| region := "Europe"; country := "France"; decade := 1870;
               medium_group := "Paintings"; n_objects := 1 |};
            {| region := "Europe"; country := "France"; decade := 1870;
               medium_group := "Prints"; n_objects := 1 |};
            {| region := "Unknown"; country := "Japan"; decade := 1630;
               medium_group := "Decorative arts"; n_objects := 1 |} ]).
Proof. by vm_compute. Qed.

(** * A master table without an optional column *)

Lemma omap_row_key_nil parse m (rows : list master_row) :
  omap (row_key parse m) rows = [] <->
  Forall (fun row => has_decade parse row = false) rows.
Proof.
  induction rows as [|row rows IH]; [by split; [constructor|]|].
  rewrite omap_cons, Forall_cons, <- IH.
  pose proof (row_key_has_decade parse m row) as Hk.
  destruct (row_key parse m row) as [k|].
  - split; [done|]. intros [Hd _].
    rewrite (proj1 Hk) in Hd by eauto. discriminate.
  - split; [|by intros [_ ?]]. intros Hnil. split; [|done].
    destruct (has_decade parse row); [|done].
    destruct (proj2 Hk eq_refl) as [? ?]. discriminate.
Qed.

(** C6. Once a decade is computed for some record, a master table that
    lacks [classification_std] or [medium_std] ends the run with an
    AttributeError and nothing written. *)
Theorem missing_optional_column_raises parse (w : world) (master_df : master_frame)
    (flows_df : option flows_frame) (decades : list (option Z)) (row : master_row) :
  master_loaded w master_df -> flows_loaded w flows_df ->
  MASTER_CLASS_COL ∉ master_columns master_df
  \/ MASTER_MEDIUM_COL ∉ master_columns master_df ->
  apply_compute_decade parse (master_rows master_df) = Ok decades ->
  row ∈ master_rows master_df -> has_decade parse row = true ->
  exists st, run parse w = (st, Raise AttributeError) /\ file st = None.
Proof.
  intros Hm Hf Hmiss Happ Hrow Hdec.
  rewrite (run_loaded parse w master_df flows_df Hm Hf), bind_eq.
  destruct (region_mapping_total flows_df {| shown := [step_1; step_2]; file := None |})
    as (ds & m & ->).
  rewrite bind_eq, prepare_and_group_eq, Happ. cbv zeta.
  rewrite bool_decide_eq_false_2; last first.
  { rewrite omap_row_key_nil, Forall_forall. intros Hall.
    rewrite (Hall row Hrow) in Hdec. discriminate. }
  assert (has_column MASTER_CLASS_COL (master_columns master_df)
          && has_column MASTER_MEDIUM_COL (master_columns master_df) = false) as ->.
  { unfold has_column. destruct Hmiss as [H|H]; rewrite (bool_decide_eq_false_2 _ H);
      [done | apply andb_false_r]. }
  by eexists.
Qed.

Lemma missing_optional_column_raises_witness :
  exists st,
    run decimal_numeral (world_of master_without_classification None)
    = (st, Raise AttributeError) /\ file st = None.
Proof.
  apply (missing_optional_column_raises decimal_numeral
           (world_of master_without_classification None)
           master_without_classification None
           [Some 1870; Some 1870; Some 1630]
           (object_row "France" 1875 "Painting" "oil on canvas")).
  - split; [done|]. split; [reflexivity|].
    apply (bool_decide_unpack _). reflexivity.
  - reflexivity.
  - left. apply (bool_decide_eq_false_1 (MASTER_CLASS_COL
                      ∈ master_columns master_without_classification)).
    reflexivity.
  - reflexivity.
  - by left.
  - reflexivity.
Defined.

(** * A lookup table without an expected column *)

Lemma cancel_flows_loaded (w : world) (master_df : master_frame) :
  master_loaded w master_df ->
  master_loaded (cancel_flows w) master_df /\ flows_loaded (cancel_flows w) None.
Proof. intros Hm. split; [exact Hm | reflexivity]. Qed.

(** What follows the region mapping does not look at the dialogs already
    shown: one more dialog before it is one more dialog in the outcome. *)
Lemma rest_of_run_after_dialog parse (w : world) (master_df : master_frame)
    (m : gmap string string) (d : dialog) (shown0 : list dialog) :
  exists rest fl f,
    (prepare_and_group parse m master_df ≫= save_grouped w)
      {| shown := shown0; file := None |}
    = ({| shown := shown0 ++ rest; file := f |}, fl)
    /\ (prepare_and_group parse m master_df ≫= save_grouped w)
         {| shown := shown0 ++ [d]; file := None |}
       = ({| shown := shown0 ++ d :: rest; file := f |}, fl)
    /\ forall path rows, f = Some (path, rows) ->
         rows = groupby_size (omap (row_key parse m) (master_rows master_df)).
Proof.
  rewrite !bind_eq, !prepare_and_group_eq.
  destruct (apply_compute_decade parse (master_rows master_df)).
  2: { exists [], (Raise e), None. rewrite app_nil_r. by repeat split. }
  cbv zeta.
  destruct (bool_decide (omap (row_key parse m) (master_rows master_df) = [])).
  { exists [no_rows_remain], Return, None. unfold say. cbn [shown file].
    rewrite <- (assoc_L (++)). by repeat split. }
  destruct (has_column MASTER_CLASS_COL _ && has_column MASTER_MEDIUM_COL _).
  2: { exists [], (Raise AttributeError), None. rewrite app_nil_r. by repeat split. }
  rewrite !save_grouped_eq. cbv zeta.
  destruct (bool_decide (groupby_size _ = [])).
  { exists [no_rows_produced], Return, None. unfold say. cbn [shown file].
    rewrite <- (assoc_L (++)). by repeat split. }
  destruct (bool_decide (save_file w _ _ = EmptyString)).
  { eexists [step_3; _], Return, None. unfold say. cbn [shown file].
    rewrite <- (assoc_L (++)). by repeat split. }
  destruct (can_write w _).
  - eexists [step_3; _], (Next tt), (Some _). cbn [shown file].
    rewrite <- (assoc_L (++)). split; [done|]. split; [done|].
    by intros path rows [= <- <-].
  - eexists [step_3; _], Return, None. unfold say. cbn [shown file].
    rewrite <- (assoc_L (++)). by repeat split.
Qed.

Lemma row_key_region_empty parse (row : master_row) (k : key) :
  row_key parse ∅ row = Some k -> k.1.1.1 = "Unknown".
Proof.
  unfold row_key. destruct (compute_decade parse row) as [[d|]|]; try discriminate.
  by intros [= <-].
Qed.

(** C7. When the lookup table that was picked lacks [origin_country] or
    [region], the run shows the warning about the flows columns after the two
    opening dialogs and is otherwise the run in which the flows dialog was
    cancelled: the same later dialogs, the same file or none, the same end;
    and every row written has region Unknown. *)
Theorem flows_columns_missing_is_skipped parse (w : world)
    (master_df : master_frame) (flows_df : flows_frame) :
  master_loaded w master_df -> flows_loaded w (Some flows_df) ->
  FLOWS_COUNTRY_COL ∉ flows_columns flows_df
  \/ FLOWS_REGION_COL ∉ flows_columns flows_df ->
  exists rest f fl,
    run parse (cancel_flows w)
    = ({| shown := step_1 :: step_2 :: rest; file := f |}, fl)
    /\ run parse w
       = ({| shown := step_1 :: step_2 :: flows_columns_missing :: rest; file := f |}, fl)
    /\ forall path rows r, f = Some (path, rows) -> r ∈ rows -> region r = "Unknown".
Proof.
  intros Hm Hf Hmiss.
  destruct (cancel_flows_loaded w master_df Hm) as [Hm' Hf'].
  rewrite (run_loaded parse w master_df (Some flows_df) Hm Hf).
  rewrite (run_loaded parse (cancel_flows w) master_df None Hm' Hf').
  rewrite !bind_eq.
  rewrite (bool_decide_eq_true_2 (is_Some (Some flows_df))) by (by eexists).
  rewrite (bool_decide_eq_false_2 (is_Some (@None flows_frame)))
    by (by intros [? ?]).
  rewrite region_mapping_none, (region_mapping_no_columns _ _ Hmiss).
  unfold say. cbn [shown file].
  destruct (rest_of_run_after_dialog parse w master_df ∅ flows_columns_missing
              [step_1; step_2]) as (rest & fl & f & Hwithout & Hwith & Hrows).
  cbn [app] in Hwithout, Hwith.
  exists rest, f, fl. split; [|split].
  - rewrite <- Hwithout. rewrite !bind_eq.
    by destruct (prepare_and_group parse ∅ master_df _) as [st' [g| |e]].
  - exact Hwith.
  - intros path rows r Hfile Hr. rewrite (Hrows path rows Hfile) in Hr.
    apply elem_of_groupby_size in Hr as [Hk _].
    apply list_elem_of_omap in Hk as (row & _ & Hk).
    apply row_key_region_empty in Hk. exact Hk.
Qed.

Lemma flows_columns_missing_is_skipped_witness :
  exists rest f fl,
    run decimal_numeral (cancel_flows (world_of example_master (Some flows_without_region)))
    = ({| shown := step_1 :: step_2 :: rest; file := f |}, fl)
    /\ run decimal_numeral (world_of example_master (Some flows_without_region))
       = ({| shown := step_1 :: step_2 :: flows_columns_missing :: rest; file := f |}, fl)
    /\ forall path rows r, f = Some (path, rows) -> r ∈ rows -> region r = "Unknown".
Proof.
  apply (flows_columns_missing_is_skipped decimal_numeral
           (world_of example_master (Some flows_without_region))
           example_master flows_without_region).
  - split; [done|]. split; [reflexivity|].
    apply (bool_decide_unpack _). reflexivity.
  - split; [done | reflexivity].
  - right. apply (bool_decide_eq_false_1 (FLOWS_REGION_COL
                     ∈ flows_columns flows_without_region)).
    reflexivity.
Defined.

(** * The empty result *)

(** C8. When no record has a decade, the run shows the warning that no
    rows remain and returns, nothing written and nothing raised; and the
    saving part, given an empty grouped table, shows the warning that no rows
    were produced and returns without writing. A grouped table is empty only
    when no record has a decade. *)
Theorem empty_result_halts parse (w : world) (master_df : master_frame)
    (flows_df : option flows_frame) :
  master_loaded w master_df -> flows_loaded w flows_df ->
  Forall (fun row => compute_decade parse row = Ok None) (master_rows master_df) ->
  (exists st, run parse w = (st, Return)
              /\ file st = None
              /\ last (shown st) = Some no_rows_remain)
  /\ (forall st, save_grouped w [] st = (say st [no_rows_produced], Return))
  /\ (forall keys, groupby_size keys = [] <-> keys = []).
Proof.
  intros Hm Hf Hall. split; [|split].
  - rewrite (run_loaded parse w master_df flows_df Hm Hf), bind_eq.
    destruct (region_mapping_total flows_df {| shown := [step_1; step_2]; file := None |})
      as (ds & m & ->).
    rewrite bind_eq, prepare_and_group_eq.
    assert (exists decades, apply_compute_decade parse (master_rows master_df) = Ok decades)
      as [decades ->].
    { exists (const None <$> master_rows master_df).
      apply apply_compute_decade_Forall2.
      induction Hall; csimpl; by constructor. }
    cbv zeta. rewrite bool_decide_eq_true_2.
    + eexists. split; [reflexivity|]. split; [reflexivity|].
      unfold say. cbn [shown]. by rewrite last_snoc.
    + apply omap_row_key_nil. eapply Forall_impl; [exact Hall|].
      intros row Hrow. unfold has_decade. by rewrite Hrow.
  - intros st. by rewrite save_grouped_eq.
  - apply groupby_size_nil.
Qed.

Lemma empty_result_halts_witness :
  exists st,
    run decimal_numeral (world_of master_out_of_range (Some example_flows))
    = (st, Return)
    /\ file st = None /\ last (shown st) = Some no_rows_remain.
Proof.
  apply (empty_result_halts decimal_numeral
           (world_of master_out_of_range (Some example_flows))
           master_out_of_range (Some example_flows)).
  - split; [done|]. split; [reflexivity|].
    apply (bool_decide_unpack _). reflexivity.
  - split; [done | reflexivity].
  - repeat constructor.
Defined.

(** * The country of a record *)

Lemma row_key_country parse m (row : master_row) (k : key) :
  row_key parse m row = Some k ->
  k.1.1.2 = (let stripped := strip (astype_str (origin_country_std row)) in
             if bool_decide (stripped = EmptyString) then "Unknown" else stripped)
  /\ k.1.1.1 = region_of m (strip (astype_str (origin_country_std row))).
Proof.
  unfold row_key. destruct (compute_decade parse row) as [[d|]|]; try discriminate.
  by intros [= <-].
Qed.

(** C9. A record whose country text is empty once stripped of
    surrounding whitespace has the derived country Unknown, in the working
    table and in its group key. *)
Theorem blank_country_is_unknown parse m (row : master_row) (s : string) :
  origin_country_std row = PyStr s -> strip s = EmptyString ->
  (forall i d, d_country (derive m i row d) = "Unknown")
  /\ (forall k, row_key parse m row = Some k -> k.1.1.2 = "Unknown").
Proof.
  intros Hs Hblank.
  assert (strip (astype_str (origin_country_std row)) = EmptyString) as Hstripped
    by (by rewrite Hs).
  split.
  - intros i d. unfold derive. cbn [d_country]. by rewrite Hstripped.
  - intros k Hk. apply row_key_country in Hk as [-> _]. cbv zeta.
    by rewrite Hstripped.
Qed.

Lemma blank_country_is_unknown_witness :
  strip "   " = EmptyString
  /\ row_key decimal_numeral (build_country_to_region example_flows) row_blank_country
     = Some ("Unknown", "Unknown", 1870, "Sculpture").
Proof.
  split; [reflexivity|].
  assert (exists k, row_key decimal_numeral (build_country_to_region example_flows)
                      row_blank_country = Some k
                    /\ k.1.1.1 = "Unknown" /\ k.1.2 = 1870 /\ k.2 = "Sculpture")
    as ([[[g c] d] mg] & Hk & Hg & Hd & Hmg).
  { eexists. split; [by vm_compute|]. by repeat split. }
  simpl in Hg, Hd, Hmg. subst g d mg.
  pose proof (proj2 (blank_country_is_unknown decimal_numeral
                       (build_country_to_region example_flows) row_blank_country
                       "   " eq_refl eq_refl) _ Hk) as Hc.
  simpl in Hc. by subst c.
Defined.

Lemma votes_pos_row (flows_df : flows_frame) (c g : string) :
  (0 < votes flows_df c g)%nat ->
  exists r, r ∈ flows_rows flows_df /\ origin_country r = PyStr c.
Proof.
  unfold votes. intros Hpos.
  destruct (filter _ (flows_rows flows_df)) as [|r l] eqn:Hf; [simpl in Hpos; lia|].
  assert (r ∈ filter (fun r => origin_country r = PyStr c /\ flows_region r = PyStr g)
                     (flows_rows flows_df)) as Hr by (rewrite Hf; by left).
  apply list_elem_of_filter in Hr as [[Hc _] Hr]. by exists r.
Qed.

(** C10. A record whose country is missing has the derived country nan,
    which is not Unknown, in the working table and in its group key; its
    region is Unknown whenever the mapping has no entry for the text nan, and
    the mapping has none when no row of the lookup table carries the text nan
    as its country. *)
Theorem missing_country_is_nan parse m (row : master_row) :
  origin_country_std row = PyNaN ->
  (forall i d, d_country (derive m i row d) = "nan")
  /\ (forall k, row_key parse m row = Some k ->
                k.1.1.2 = "nan" /\ k.1.1.2 <> "Unknown")
  /\ (m !! "nan" = None ->
      (forall i d, d_region (derive m i row d) = "Unknown")
      /\ (forall k, row_key parse m row = Some k -> k.1.1.1 = "Unknown"))
  /\ (forall flows_df,
        (forall r, r ∈ flows_rows flows_df -> origin_country r <> PyStr "nan") ->
        build_country_to_region flows_df !! "nan" = None).
Proof.
  intros Hnan.
  assert (strip (astype_str (origin_country_std row)) = "nan") as Hstripped
    by (by rewrite Hnan).
  split; [|split; [|split]].
  - intros i d. unfold derive. cbn [d_country]. by rewrite Hstripped.
  - intros k Hk. apply row_key_country in Hk as [-> _]. cbv zeta.
    by rewrite Hstripped.
  - intros Hm. split.
    + intros i d. unfold derive. cbn [d_region]. rewrite Hstripped.
      by apply region_of_None.
    + intros k Hk. apply row_key_country in Hk as [_ ->]. rewrite Hstripped.
      by apply region_of_None.
  - intros flows_df Hrows.
    destruct (build_country_to_region flows_df !! "nan") as [g|] eqn:Hg; [|done].
    apply build_country_to_region_Some in Hg as [Hpos _].
    apply votes_pos_row in Hpos as (r & Hr & Hc).
    by destruct (Hrows r Hr).
Qed.

Lemma missing_country_is_nan_witness :
  origin_country_std row_without_country = PyNaN
  /\ row_key decimal_numeral (build_country_to_region example_flows) row_without_country
     = Some ("Unknown", "nan", 1510, "Drawings").
Proof.
  split; [reflexivity|].
  destruct (missing_country_is_nan decimal_numeral
              (build_country_to_region example_flows) row_without_country eq_refl)
    as (_ & Hcountry & Hregion & Hnone).
  assert (build_country_to_region example_flows !! "nan" = None) as Hm.
  { apply Hnone. intros r Hr.
    repeat (apply elem_of_cons in Hr as [->|Hr]; [discriminate|]).
    by apply elem_of_nil in Hr. }
  assert (exists k, row_key decimal_numeral (build_country_to_region example_flows)
                      row_without_country = Some k
                    /\ k.1.2 = 1510 /\ k.2 = "Drawings")
    as ([[[g c] d] mg] & Hk & Hd & Hmg).
  { eexists. split; [by vm_compute|]. by split. }
  simpl in Hd, Hmg. subst d mg. rewrite Hk.
  destruct (Hcountry _ Hk) as [Hc _]. pose proof (proj2 (Hregion Hm) _ Hk) as Hg.
  simpl in Hc, Hg. by subst.
Defined.

(** * Further properties *)

(** * More on the medium classifier *)

Lemma lower_char_idemp (c : ascii) : lower_char (lower_char c) = lower_char c.
Proof. destruct c as [[] [] [] [] [] [] [] []]; reflexivity. Qed.

Lemma lower_idemp (s : string) : lower (lower s) = lower s.
Proof.
  induction s as [|c s IH]; [done|]. simpl. by rewrite lower_char_idemp, IH.
Qed.

Lemma append_assoc (a b c : string) : (a +:+ b) +:+ c = a +:+ (b +:+ c).
Proof.
  induction a as [|x a IH]; [done|].
  change (String x ((a +:+ b) +:+ c) = String x (a +:+ b +:+ c)). by rewrite IH.
Qed.

Lemma categorize_medium_in_labels (classification medium : pytext) :
  categorize_medium classification medium
  ∈ ["Photographs"; "Prints"; "Drawings"; "Paintings"; "Sculpture"; "Textiles";
     "Decorative arts"; "Other"].
Proof.
  unfold categorize_medium. cbv zeta.
  repeat (destruct (any_in _ _); [apply (bool_decide_unpack _); reflexivity|]).
  apply (bool_decide_unpack _); reflexivity.
Qed.

(** X1. Whatever the two cells hold, [categorize_medium] returns one of the
    eight labels Photographs, Prints, Drawings, Paintings, Sculpture,
    Textiles, Decorative arts and Other. *)
Theorem categorize_medium_label (classification medium : pytext) :
  categorize_medium classification medium
  ∈ ["Photographs"; "Prints"; "Drawings"; "Paintings"; "Sculpture"; "Textiles";
     "Decorative arts"; "Other"].
Proof. apply categorize_medium_in_labels. Qed.

(** X2. The classifier ignores case: lower-casing the classification and the
    medium beforehand leaves the category as it is. *)
Theorem categorize_medium_ignores_case (c m : string) :
  categorize_medium (PyStr (lower c)) (PyStr (lower m))
  = categorize_medium (PyStr c) (PyStr m).
Proof.
  rewrite !categorize_medium_table. cbn [str_or_empty]. by rewrite !lower_idemp.
Qed.

Lemma str_in_after_nan (k t : string) :
  String.prefix k (String "n" (String "a" (String "n" t))) = false ->
  String.prefix k (String "a" (String "n" t)) = false ->
  String.prefix k (String "n" t) = false ->
  str_in k (String "n" (String "a" (String "n" t))) = str_in k t.
Proof. intros H1 H2 H3. rewrite !str_in_cons, H1, H2, H3. reflexivity. Qed.

Lemma any_in_after_nan (ks : list string) (t : string) :
  Forall (fun k => forall u,
            String.prefix k (String "n" (String "a" (String "n" (String " " u)))) = false
            /\ String.prefix k (String "a" (String "n" (String " " u))) = false
            /\ String.prefix k (String "n" (String " " u)) = false) ks ->
  any_in ks (String "n" (String "a" (String "n" (String " " t))))
  = any_in ks (String " " t).
Proof.
  intros Hks. unfold any_in. induction Hks as [|k ks Hk Hks IH]; [done|].
  cbn [existsb]. rewrite IH. f_equal.
  destruct (Hk t) as (H1 & H2 & H3). by apply str_in_after_nan.
Qed.

Lemma prefix_before_nan (k c : string) :
  blind_to_nan k = true ->
  String.prefix k (c +:+ " nan") = String.prefix k (c +:+ " ").
Proof.
  revert k. induction c as [|a c IH]; intros k Hk.
  - destruct k; apply andb_true_iff in Hk as [Hk _]; by apply eqb_prop in Hk.
  - destruct k as [|x k]; [done|].
    change (String.prefix (String x k) (String a (c +:+ " nan"))
            = String.prefix (String x k) (String a (c +:+ " "))).
    cbn [String.prefix]. destruct (ascii_dec x a); [|done].
    apply IH. cbn [blind_to_nan] in Hk. by apply andb_true_iff in Hk as [_ Hk].
Qed.

Lemma str_in_before_nan (k c : string) :
  blind_to_nan k = true -> str_in k " nan" = str_in k " " ->
  str_in k (c +:+ " nan") = str_in k (c +:+ " ").
Proof.
  intros Hk Hbase. induction c as [|a c IH]; [exact Hbase|].
  change (str_in k (String a (c +:+ " nan")) = str_in k (String a (c +:+ " "))).
  rewrite !str_in_cons, IH. f_equal.
  exact (prefix_before_nan k (String a c) Hk).
Qed.

Lemma any_in_before_nan (ks : list string) (c : string) :
  forallb (fun k => blind_to_nan k && Bool.eqb (str_in k " nan") (str_in k " ")) ks
  = true ->
  any_in ks (c +:+ " nan") = any_in ks (c +:+ " ").
Proof.
  intros Hks. unfold any_in. induction ks as [|k ks IH]; [done|].
  cbn [forallb] in Hks. apply andb_true_iff in Hks as [Hk Hks].
  apply andb_true_iff in Hk as [Hk Hbase]. apply eqb_prop in Hbase.
  cbn [existsb]. rewrite (IH Hks). f_equal. by apply str_in_before_nan.
Qed.

(** X3. A missing cell is classified as the empty text is, in either
    position: the text nan it prints as meets no keyword, not even together
    with the joining space. *)
Theorem categorize_medium_missing_cell (x : pytext) :
  categorize_medium PyNaN x = categorize_medium (PyStr EmptyString) x
  /\ categorize_medium x PyNaN = categorize_medium x (PyStr EmptyString).
Proof.
  split.
  - unfold categorize_medium. cbv zeta.
    change (lower (str_or_empty PyNaN) +:+ " " +:+ lower (str_or_empty x))
      with (String "n" (String "a" (String "n"
              (String " " (lower (str_or_empty x)))))).
    change (lower (str_or_empty (PyStr EmptyString)) +:+ " "
            +:+ lower (str_or_empty x))
      with (String " " (lower (str_or_empty x))).
    rewrite !(any_in_after_nan _ (lower (str_or_empty x))); [done|..];
      repeat (constructor; [intros u; by repeat split|]); constructor.
  - unfold categorize_medium. cbv zeta.
    change (lower (str_or_empty x) +:+ " " +:+ lower (str_or_empty PyNaN))
      with (lower (str_or_empty x) +:+ " nan").
    change (lower (str_or_empty x) +:+ " " +:+ lower (str_or_empty (PyStr EmptyString)))
      with (lower (str_or_empty x) +:+ " ").
    by rewrite !(any_in_before_nan _ (lower (str_or_empty x))) by reflexivity.
Qed.

(** X4. A classification whose lower-case form ends in photo is classified
    Photographs whatever the medium, missing or not: the joining space
    completes the keyword made of photo and a space. *)
Theorem categorize_medium_trailing_photo (c a : string) (medium : pytext) :
  lower c = a +:+ "photo" ->
  categorize_medium (PyStr c) medium = "Photographs".
Proof.
  intros Hc. rewrite categorize_medium_table. cbn [str_or_empty]. rewrite Hc.
  apply (first_category_hit []).
  - intros cat' kws' k Hin. by apply elem_of_nil in Hin.
  - exists "photo ". split; [by repeat constructor|].
    exists a, (lower (str_or_empty medium)).
    rewrite append_assoc. reflexivity.
Qed.

Lemma categorize_medium_trailing_photo_witness :
  lower "Studio Photo" = "studio " +:+ "photo"
  /\ categorize_medium (PyStr "Studio Photo") PyNaN = "Photographs".
Proof.
  split; [reflexivity|].
  exact (categorize_medium_trailing_photo "Studio Photo" "studio " PyNaN eq_refl).
Defined.

(** * More on the decade calculator *)

Lemma compute_decade_cases parse (row : master_row) :
  match year_of parse row with
  | None => compute_decade parse row = Ok None
  | Some (Fin Y) =>
      compute_decade parse row =
      Ok (let d := Qfloor (Y / 10) * 10 in
          if (d <? MIN_DECADE) || (d >? MAX_DECADE) then None else Some d)
  | Some _ => compute_decade parse row = Raised OverflowError
  end.
Proof.
  destruct (year_of parse row) as [[Y| |]|] eqn:Hy.
  - by apply compute_decade_finite.
  - unfold compute_decade. by rewrite Hy.
  - unfold compute_decade. by rewrite Hy.
  - unfold compute_decade. by rewrite Hy.
Qed.

Lemma decade_in_range_iff (Y : Q) :
  let d := Qfloor (Y / 10) * 10 in
  (d <? MIN_DECADE) || (d >? MAX_DECADE) = false <-> (1400 <= Y < 2030)%Q.
Proof.
  intros d. pose proof (decade_brackets_year Y) as [Hlo Hhi]. fold d in Hlo, Hhi.
  unfold MIN_DECADE, MAX_DECADE. rewrite orb_false_iff, Z.ltb_ge, Z.gtb_ltb, Z.ltb_ge.
  assert (d = Qfloor (Y / 10) * 10) as Hd by done. clearbody d.
  split.
  - intros [H1 H2]. rewrite Zle_Qle in H1, H2.
    change (inject_Z 1400) with (1400%Q) in H1.
    change (inject_Z 2020) with (2020%Q) in H2. split; lra.
  - intros [H1 H2].
    assert (inject_Z 1390 < inject_Z d)%Q as Hl
      by (change (inject_Z 1390) with (1390%Q); lra).
    assert (inject_Z d < inject_Z 2030)%Q as Hu
      by (change (inject_Z 2030) with (2030%Q); lra).
    rewrite <- Zlt_Qlt in Hl, Hu. lia.
Qed.

Lemma compute_decade_Some_range parse (row : master_row) (d : Z) :
  compute_decade parse row = Ok (Some d) ->
  1400 <= d <= 2020 /\ d mod 10 = 0.
Proof.
  intros Hd. pose proof (compute_decade_cases parse row) as Hc.
  destruct (year_of parse row) as [[Y| |]|]; rewrite Hd in Hc; try discriminate.
  cbv zeta in Hc. unfold MIN_DECADE, MAX_DECADE in Hc.
  destruct (_ || _) eqn:Hr; [discriminate|].
  assert (d = Qfloor (Y / 10) * 10) as -> by congruence.
  apply orb_false_iff in Hr as [H1 H2]. apply Z.ltb_ge in H1.
  rewrite Z.gtb_ltb in H2. apply Z.ltb_ge in H2. split; [lia|].
  apply Z.mod_mul. lia.
Qed.

(** X5. A decade returned by [compute_decade] is a multiple of ten between
    1400 and 2020. *)
Theorem compute_decade_result_range parse (row : master_row) (d : Z) :
  compute_decade parse row = Ok (Some d) ->
  1400 <= d <= 2020 /\ d mod 10 = 0.
Proof. apply compute_decade_Some_range. Qed.

Lemma compute_decade_result_range_witness :
  compute_decade decimal_numeral row_without_country = Ok (Some 1510)
  /\ 1400 <= 1510 <= 2020 /\ 1510 mod 10 = 0.
Proof.
  split; [reflexivity|].
  exact (compute_decade_result_range decimal_numeral row_without_country 1510 eq_refl).
Defined.

(** X6. A record whose year is the finite number [Y] gets a decade exactly
    when [1400 <= Y < 2030]: the year 2029.9 is kept, 2030 and 1399.9 are
    dropped. *)
Theorem compute_decade_kept_years parse (row : master_row) (Y : Q) :
  year_of parse row = Some (Fin Y) ->
  (exists d, compute_decade parse row = Ok (Some d)) <-> (1400 <= Y < 2030)%Q.
Proof.
  intros Hy. pose proof (compute_decade_cases parse row) as Hc. rewrite Hy in Hc.
  cbv zeta in Hc. rewrite <- decade_in_range_iff. cbv zeta.
  destruct (_ || _); rewrite Hc; split; try done.
  - intros [d Hd]. discriminate.
  - intros _. by eexists.
Qed.

Lemma compute_decade_kept_years_witness :
  year_of decimal_numeral row_blank_country = Some (Fin (18755 # 10))
  /\ exists d, compute_decade decimal_numeral row_blank_country = Ok (Some d).
Proof.
  split; [reflexivity|].
  apply (compute_decade_kept_years decimal_numeral row_blank_country (18755 # 10) eq_refl).
  split; [by vm_compute | by vm_compute].
Defined.

(** X7. [compute_decade] raises exactly when the year it reads is an
    infinity, and the exception is then OverflowError. *)
Theorem compute_decade_overflow_iff parse (row : master_row) (e : exn) :
  compute_decade parse row = Raised e <->
  e = OverflowError /\ exists y, year_of parse row = Some y /\ infinite y.
Proof.
  pose proof (compute_decade_cases parse row) as Hc.
  destruct (year_of parse row) as [[Y| |]|]; rewrite Hc; split.
  - discriminate.
  - intros [_ (y & [= <-] & [?|?])]; discriminate.
  - intros [= <-]. split; [done|]. exists PosInf. split; [done | by left].
  - by intros [-> _].
  - intros [= <-]. split; [done|]. exists NegInf. split; [done | by right].
  - by intros [-> _].
  - discriminate.
  - intros [_ (y & ? & _)]; discriminate.
Qed.

(** X8. A start year that is a number outside [1400, 2030) drops the record,
    whatever the end year: the end year is not consulted once the start year is
    a number. *)
Theorem compute_decade_no_fallback_when_out_of_range parse (row : master_row) (Y : Q) :
  to_numeric parse (creation_start_year_std row) = Some (Fin Y) ->
  (Y < 1400 \/ 2030 <= Y)%Q ->
  compute_decade parse row = Ok None.
Proof.
  intros Hs Hout.
  assert (year_of parse row = Some (Fin Y)) as Hy.
  { unfold year_of. cbv zeta. rewrite Hs. by rewrite bool_decide_eq_false_2. }
  pose proof (compute_decade_cases parse row) as Hc. rewrite Hy in Hc.
  cbv zeta in Hc. rewrite Hc.
  destruct (_ || _) eqn:Hr; [done|].
  apply decade_in_range_iff in Hr. lra.
Qed.

Lemma compute_decade_no_fallback_when_out_of_range_witness :
  to_numeric decimal_numeral (creation_start_year_std row_early_start)
  = Some (Fin (inject_Z 1390))
  /\ to_numeric decimal_numeral (creation_end_year_std row_early_start)
     = Some (Fin (inject_Z 1450))
  /\ compute_decade decimal_numeral row_early_start = Ok None.
Proof.
  split; [reflexivity|]. split; [reflexivity|].
  apply (compute_decade_no_fallback_when_out_of_range decimal_numeral row_early_start
           (inject_Z 1390) eq_refl).
  left. by vm_compute.
Defined.

(** * More on the run *)

Lemma compute_decade_raised parse (row : master_row) (e : exn) :
  compute_decade parse row = Raised e ->
  e = OverflowError /\ exists y, year_of parse row = Some y /\ infinite y.
Proof.
  pose proof (compute_decade_cases parse row) as Hc.
  destruct (year_of parse row) as [[Y| |]|]; rewrite Hc; try discriminate.
  - intros [= <-]. split; [done|]. exists PosInf. split; [done | by left].
  - intros [= <-]. split; [done|]. exists NegInf. split; [done | by right].
Qed.

Lemma compute_decade_infinite parse (row : master_row) (y : num) :
  year_of parse row = Some y -> infinite y ->
  compute_decade parse row = Raised OverflowError.
Proof.
  intros Hy Hinf. pose proof (compute_decade_cases parse row) as Hc.
  rewrite Hy in Hc. by destruct Hinf as [-> | ->].
Qed.

(** A raise of [df.apply] is the raise of one of its rows. *)
Lemma apply_compute_decade_raised parse (rows : list master_row) (e : exn) :
  apply_compute_decade parse rows = Raised e ->
  exists row, row ∈ rows /\ compute_decade parse row = Raised e.
Proof.
  induction rows as [|row rows IH]; simpl; [discriminate|].
  destruct (compute_decade parse row) as [d|e'] eqn:Hd; simpl.
  - destruct (apply_compute_decade parse rows) as [ds|e'] eqn:Hds; simpl;
      [discriminate|].
    intros [= <-]. destruct (IH eq_refl) as (row' & Hin & Hr).
    exists row'. split; [by right | done].
  - intros [= <-]. exists row. split; [by left | done].
Qed.

(** With a row that raises, [df.apply] raises. *)
Lemma apply_compute_decade_raises parse (rows : list master_row) (row : master_row)
    (e : exn) :
  row ∈ rows -> compute_decade parse row = Raised e ->
  exists e', apply_compute_decade parse rows = Raised e'.
Proof.
  intros Hin Hr. induction rows as [|r rows IH]; [by apply elem_of_nil in Hin|].
  simpl. destruct (compute_decade parse r) as [d|e'] eqn:Hd; simpl; [|by eexists].
  apply elem_of_cons in Hin as [->|Hin]; [congruence|].
  destruct (IH Hin) as [e' ->]. simpl. by eexists.
Qed.

Lemma apply_compute_decade_overflow parse (rows : list master_row) (e : exn) :
  apply_compute_decade parse rows = Raised e <->
  e = OverflowError /\
  exists row y, row ∈ rows /\ year_of parse row = Some y /\ infinite y.
Proof.
  split.
  - intros Hr. apply apply_compute_decade_raised in Hr as (row & Hin & Hr).
    apply compute_decade_raised in Hr as [-> (y & Hy & Hinf)].
    split; [done|]. by exists row, y.
  - intros [-> (row & y & Hin & Hy & Hinf)].
    destruct (apply_compute_decade_raises parse rows row OverflowError Hin
                (compute_decade_infinite parse row y Hy Hinf)) as [e' He'].
    rewrite He'. f_equal.
    apply apply_compute_decade_raised in He' as (row' & _ & Hr').
    by apply compute_decade_raised in Hr' as [-> _].
Qed.

Lemma region_mapping_of (flows_df : option flows_frame) (st : state) :
  region_mapping (bool_decide (is_Some flows_df)) flows_df st
  = (say st (region_mapping_dialogs flows_df), Next (country_to_region_of flows_df)).
Proof.
  assert (forall st : state, say st [] = st) as Hsay.
  { intros [sh f]. unfold say. cbn [shown file]. by rewrite app_nil_r. }
  destruct flows_df as [fdf|].
  - rewrite bool_decide_eq_true_2 by (by eexists).
    unfold region_mapping, country_to_region_of, region_mapping_dialogs,
      has_flows_columns.
    destruct (has_column FLOWS_COUNTRY_COL _), (has_column FLOWS_REGION_COL _);
      cbn [negb orb andb]; by rewrite ?Hsay.
  - rewrite bool_decide_eq_false_2 by (by intros [? ?]).
    cbn [region_mapping country_to_region_of region_mapping_dialogs].
    by rewrite Hsay.
Qed.

(** The run, once both tables are loaded, in closed form. *)
Lemma run_closed_form parse (w : world) (master_df : master_frame)
    (flows_df : option flows_frame) :
  master_loaded w master_df -> flows_loaded w flows_df ->
  run parse w =
  let st1 := {| shown := step_1 :: step_2 :: region_mapping_dialogs flows_df;
                file := None |} in
  let keys := omap (row_key parse (country_to_region_of flows_df))
                   (master_rows master_df) in
  match apply_compute_decade parse (master_rows master_df) with
  | Raised e => (st1, Raise e)
  | Ok _ =>
      if bool_decide (keys = []) then (say st1 [no_rows_remain], Return)
      else if has_column MASTER_CLASS_COL (master_columns master_df)
              && has_column MASTER_MEDIUM_COL (master_columns master_df)
      then save_grouped w (groupby_size keys) st1
      else (st1, Raise AttributeError)
  end.
Proof.
  intros Hm Hf. rewrite (run_loaded parse w master_df flows_df Hm Hf).
  rewrite bind_eq, region_mapping_of. unfold say at 1. cbn [shown file app].
  rewrite bind_eq, prepare_and_group_eq. cbv zeta.
  destruct (apply_compute_decade parse (master_rows master_df)); [|done].
  destruct (bool_decide _); [done|].
  by destruct (_ && _).
Qed.

(** How the loading part ends. *)
Lemma load_inputs_outcome (w : world) (st : state) :
  exists st' fl,
    load_inputs w st = (st', fl) /\ file st' = file st /\
    match fl with
    | Next _ => exists master_df flows_df,
                  master_loaded w master_df /\ flows_loaded w flows_df
    | Return => exists d, last (shown st') = Some d /\ is_alert d = true
    | Raise _ => False
    end.
Proof.
  unfold load_inputs. rewrite bind_eq. cbn [messagebox].
  destruct (decide (pick_file w "Select master objects CSV" = EmptyString)) as [Hm|Hm].
  { rewrite (bool_decide_eq_true_2 _ Hm). do 2 eexists.
    split; [reflexivity|]. split; [reflexivity|].
    eexists. cbn [shown]. by rewrite last_snoc. }
  rewrite (bool_decide_eq_false_2 _ Hm), bind_eq. cbn [messagebox].
  rewrite bind_eq.
  destruct (read_csv_master w (pick_file w "Select master objects CSV"))
    as [mdf|] eqn:Hread.
  2: { do 2 eexists. split; [reflexivity|]. split; [reflexivity|].
       eexists. cbn [shown]. by rewrite last_snoc. }
  cbn [mret prog_ret]. rewrite bind_eq.
  assert (exists fdf,
             (flows_loaded w fdf /\
              (if negb (bool_decide (pick_file w "Select flows_country_to_museum.csv"
                                     = EmptyString))
               then match read_csv_flows w (pick_file w "Select flows_country_to_museum.csv")
                    with
                    | Some df => mret (Some df)
                    | None => messagebox (showerror "Error" "Could not read flows CSV:") ;;
                              py_return
                    end
               else mret None) = (mret fdf : prog (option flows_frame)))
             \/ (pick_file w "Select flows_country_to_museum.csv" <> EmptyString /\
                 read_csv_flows w (pick_file w "Select flows_country_to_museum.csv") = None))
    as [fdf [[Hf Heq]|[Hf Hrf]]].
  { unfold flows_loaded.
    destruct (decide (pick_file w "Select flows_country_to_museum.csv" = EmptyString))
      as [Hf|Hf].
    - exists None. left. split; [done|]. by rewrite (bool_decide_eq_true_2 _ Hf).
    - destruct (read_csv_flows w _) as [fdf|] eqn:Hrf.
      + exists (Some fdf). left. split; [done|].
        by rewrite (bool_decide_eq_false_2 _ Hf).
      + exists None. by right. }
  2: { rewrite (bool_decide_eq_false_2 _ Hf). cbn [negb]. rewrite Hrf, bind_eq.
       cbn [messagebox py_return]. do 2 eexists.
       split; [reflexivity|]. split; [reflexivity|].
       eexists. cbn [shown]. by rewrite last_snoc. }
  rewrite Heq. cbn [mret prog_ret].
  destruct (decide (Forall (fun col => col ∈ master_columns mdf)
              [MASTER_COUNTRY_COL; MASTER_START_YEAR_COL; MASTER_END_YEAR_COL]))
    as [Hcols|Hcols].
  - pose proof (load_inputs_loaded w mdf fdf st (conj Hm (conj Hread Hcols)) Hf) as Hl.
    unfold load_inputs in Hl. rewrite bind_eq in Hl. cbn [messagebox] in Hl.
    rewrite (bool_decide_eq_false_2 _ Hm), bind_eq in Hl. cbn [messagebox] in Hl.
    rewrite bind_eq, Hread in Hl. cbn [mret prog_ret] in Hl.
    rewrite bind_eq, Heq in Hl. cbn [mret prog_ret] in Hl. rewrite Hl.
    do 2 eexists. split; [reflexivity|]. split; [reflexivity|].
    exists mdf, fdf. by repeat split.
  - rewrite bool_decide_eq_false_2.
    + cbn [negb]. rewrite bind_eq. cbn [messagebox py_return]. do 2 eexists.
      split; [reflexivity|]. split; [reflexivity|].
      eexists. cbn [shown]. by rewrite last_snoc.
    + intros Hnil. apply Hcols. apply Forall_forall. intros col Hcol.
      destruct (decide (col ∈ master_columns mdf)) as [|Hno]; [done|].
      assert (col ∈ filter (fun col => has_column col (master_columns mdf) = false)
                [MASTER_COUNTRY_COL; MASTER_START_YEAR_COL; MASTER_END_YEAR_COL]) as Hin.
      { apply list_elem_of_filter. split; [|done]. unfold has_column.
        by rewrite bool_decide_eq_false_2. }
      rewrite Hnil in Hin. by apply elem_of_nil in Hin.
Qed.

Lemma save_grouped_outcome (w : world) (grouped : list agg_row) (st st' : state)
    (fl : flow unit) :
  save_grouped w grouped st = (st', fl) -> file st = None ->
  match fl with
  | Next _ =>
      grouped <> [] /\
      save_file w "Save counts_by_country_decade_medium.csv"
        "counts_by_country_decade_medium.csv" <> EmptyString /\
      can_write w (save_file w "Save counts_by_country_decade_medium.csv"
                     "counts_by_country_decade_medium.csv") = true /\
      file st' = Some (save_file w "Save counts_by_country_decade_medium.csv"
                         "counts_by_country_decade_medium.csv", grouped) /\
      last (shown st') = Some (showinfo "Done" "Wrote rows to:")
  | Return => file st' = None /\ exists d, last (shown st') = Some d /\ is_alert d = true
  | Raise _ => False
  end.
Proof.
  rewrite save_grouped_eq. cbv zeta. intros Hs Hfile.
  destruct (bool_decide (grouped = [])) eqn:Hg.
  { injection Hs as <- <-. split; [done|]. eexists. unfold say. cbn [shown].
    by rewrite last_snoc. }
  destruct (bool_decide (save_file w _ _ = EmptyString)) eqn:Hp.
  { injection Hs as <- <-. split; [done|]. eexists. unfold say. cbn [shown].
    rewrite (last_app_cons _ [_]). by cbn. }
  destruct (can_write w _) eqn:Hw; injection Hs as <- <-.
  - apply bool_decide_eq_false in Hg, Hp. repeat split; try done.
    cbn [shown]. rewrite (last_app_cons _ [_]). by cbn.
  - split; [done|]. eexists. unfold say. cbn [shown].
    rewrite (last_app_cons _ [_]). by cbn.
Qed.

(** * How a run can end *)

(** X9. A run ends in one of three ways. It completes, and then a non-empty
    table was written and the last dialog is the Done box; or it returns early,
    and then nothing was written and the last dialog is a warning or an error;
    or it raises, and then nothing was written. *)
Theorem run_outcome parse (w : world) (st : state) (fl : flow unit) :
  run parse w = (st, fl) ->
  match fl with
  | Next _ => (exists path rows, file st = Some (path, rows) /\ rows <> [])
              /\ last (shown st) = Some (showinfo "Done" "Wrote rows to:")
  | Return => file st = None
              /\ exists d, last (shown st) = Some d /\ is_alert d = true
  | Raise _ => file st = None
  end.
Proof.
  intros Hrun. unfold run, main in Hrun. rewrite bind_eq in Hrun.
  destruct (load_inputs_outcome w {| shown := []; file := None |})
    as (st1 & fl1 & Hload & Hfile1 & Hcase).
  destruct fl1 as [[[mdf0 fdf0] use]| |e]; [|rewrite Hload in Hrun|done].
  2: { injection Hrun as <- <-. split; [by rewrite Hfile1|]. exact Hcase. }
  destruct Hcase as (mdf & fdf & Hm & Hf).
  pose proof (run_closed_form parse w mdf fdf Hm Hf) as Hcf. cbv zeta in Hcf.
  unfold run, main in Hcf. rewrite bind_eq in Hcf. rewrite Hcf in Hrun. clear Hcf.
  destruct (apply_compute_decade parse (master_rows mdf)).
  2: { by injection Hrun as <- <-. }
  destruct (bool_decide _).
  { injection Hrun as <- <-. split; [done|]. eexists. unfold say. cbn [shown].
    by rewrite last_snoc. }
  destruct (_ && _); [|by injection Hrun as <- <-].
  pose proof (save_grouped_outcome w _ _ st fl Hrun eq_refl) as Hs.
  destruct fl as [[]| |e]; [|done|done].
  destruct Hs as (Hne & _ & _ & Hfile & Hlast). split; [|done]. eauto.
Qed.

Lemma run_outcome_witness :
  exists st, run decimal_numeral (world_of master_out_of_range None) = (st, Return)
             /\ file st = None
             /\ exists d, last (shown st) = Some d /\ is_alert d = true.
Proof.
  destruct (run decimal_numeral (world_of master_out_of_range None)) as [st fl] eqn:Hrun.
  pose proof (run_outcome decimal_numeral _ st fl Hrun) as Hout.
  assert (fl = Return) as -> by (vm_compute in Hrun; by injection Hrun as <- <-).
  exists st. by split.
Defined.

(** X10. With both tables loaded, the run writes a file exactly when no
    record has an infinite year, some record has a decade, the master table
    has both [classification_std] and [medium_std], the operator chose a save
    path and the write at that path succeeds. *)
Theorem run_writes_iff parse (w : world) (master_df : master_frame)
    (flows_df : option flows_frame) :
  master_loaded w master_df -> flows_loaded w flows_df ->
  let out_path := save_file w "Save counts_by_country_decade_medium.csv"
                    "counts_by_country_decade_medium.csv" in
  (exists st path rows, run parse w = (st, Next tt) /\ file st = Some (path, rows))
  <-> (forall row y, row ∈ master_rows master_df -> year_of parse row = Some y ->
                     ~ infinite y)
      /\ (exists row, row ∈ master_rows master_df /\ has_decade parse row = true)
      /\ MASTER_CLASS_COL ∈ master_columns master_df
      /\ MASTER_MEDIUM_COL ∈ master_columns master_df
      /\ out_path <> EmptyString
      /\ can_write w out_path = true.
Proof.
  intros Hm Hf out_path.
  rewrite (run_closed_form parse w master_df flows_df Hm Hf). cbv zeta.
  set (m := country_to_region_of flows_df).
  set (st1 := {| shown := _; file := None |}).
  assert ((exists row, row ∈ master_rows master_df /\ has_decade parse row = true)
          <-> omap (row_key parse m) (master_rows master_df) <> []) as Hsome.
  { rewrite omap_row_key_nil, Forall_forall. split.
    - intros (row & Hin & Hd) Hall. rewrite (Hall row Hin) in Hd. discriminate.
    - intros Hnot. destruct (decide (Exists (fun row => has_decade parse row = true)
                                       (master_rows master_df))) as [Hex|Hex].
      + apply Exists_exists in Hex. exact Hex.
      + exfalso. apply Hnot. intros row Hin.
        destruct (has_decade parse row) eqn:Hd; [|done].
        exfalso. apply Hex. apply Exists_exists. by exists row. }
  destruct (apply_compute_decade parse (master_rows master_df)) as [ds|e] eqn:Happ.
  2: { split.
       - intros (st & path & rows & [=] & _).
       - intros (Hfin & _). exfalso.
         destruct (proj1 (apply_compute_decade_overflow parse _ e) Happ)
           as [_ (row & y & Hin & Hy & Hinf)].
         exact (Hfin row y Hin Hy Hinf). }
  assert (forall row y, row ∈ master_rows master_df -> year_of parse row = Some y ->
                        ~ infinite y) as Hfin.
  { intros row y Hin Hy Hinf.
    assert (apply_compute_decade parse (master_rows master_df) = Raised OverflowError)
      as Habs by (apply apply_compute_decade_overflow; eauto 6).
    congruence. }
  destruct (bool_decide (omap _ _ = [])) eqn:Hk.
  { apply bool_decide_eq_true in Hk. split.
    - intros (st & path & rows & [=] & _).
    - intros (_ & Hex & _). exfalso. by apply Hsome in Hex. }
  apply bool_decide_eq_false in Hk. unfold has_column.
  destruct (bool_decide (MASTER_CLASS_COL ∈ _)) eqn:Hc; cbn [andb].
  2: { apply bool_decide_eq_false in Hc. split.
       - intros (st & path & rows & [=] & _).
       - intros (_ & _ & Hc' & _). done. }
  destruct (bool_decide (MASTER_MEDIUM_COL ∈ _)) eqn:Hmd.
  2: { apply bool_decide_eq_false in Hmd. split.
       - intros (st & path & rows & [=] & _).
       - intros (_ & _ & _ & Hmd' & _). done. }
  apply bool_decide_eq_true in Hc, Hmd.
  destruct (save_grouped w _ st1) as [st fl] eqn:Hs.
  pose proof (save_grouped_outcome w _ st1 st fl Hs eq_refl) as Hout.
  split.
  - intros (st' & path & rows & [= <- ->] & Hfile).
    destruct Hout as (_ & Hp & Hw & _). repeat split; try done. by apply Hsome.
  - intros (_ & _ & _ & _ & Hp & Hw).
    rewrite save_grouped_eq in Hs. cbv zeta in Hs.
    rewrite bool_decide_eq_false_2 in Hs by (by rewrite groupby_size_nil).
    fold out_path in Hs.
    rewrite (bool_decide_eq_false_2 _ Hp), Hw in Hs. injection Hs as <- <-.
    by eexists _, _, _.
Qed.

Lemma run_writes_iff_witness :
  exists st path rows,
    run decimal_numeral example_world = (st, Next tt) /\ file st = Some (path, rows).
Proof.
  apply (run_writes_iff decimal_numeral example_world example_master
           (Some example_flows)).
  - split; [done|]. split; [reflexivity|]. apply (bool_decide_unpack _). reflexivity.
  - split; [done | reflexivity].
  - split.
    { intros row y Hin Hy [-> | ->];
        repeat (apply elem_of_cons in Hin as [->|Hin]; [discriminate|]);
        by apply elem_of_nil in Hin. }
    split.
    { exists (object_row "France" 1875 "Painting" "oil on canvas").
      split; [by left | reflexivity]. }
    split; [apply (bool_decide_unpack _); reflexivity|].
    split; [apply (bool_decide_unpack _); reflexivity|].
    split; [done | reflexivity].
Defined.

(** X11. With both tables loaded, the run raises OverflowError exactly when
    some record has an infinite year, and AttributeError exactly when none has,
    some record has a decade and the master table lacks [classification_std]
    or [medium_std]; it raises nothing else. *)
Theorem run_raises_iff parse (w : world) (master_df : master_frame)
    (flows_df : option flows_frame) (e : exn) :
  master_loaded w master_df -> flows_loaded w flows_df ->
  (exists st, run parse w = (st, Raise e))
  <-> (e = OverflowError
       /\ exists row y, row ∈ master_rows master_df
                        /\ year_of parse row = Some y /\ infinite y)
      \/ (e = AttributeError
          /\ (forall row y, row ∈ master_rows master_df ->
                            year_of parse row = Some y -> ~ infinite y)
          /\ (exists row, row ∈ master_rows master_df /\ has_decade parse row = true)
          /\ (MASTER_CLASS_COL ∉ master_columns master_df
              \/ MASTER_MEDIUM_COL ∉ master_columns master_df)).
Proof.
  intros Hm Hf.
  rewrite (run_closed_form parse w master_df flows_df Hm Hf). cbv zeta.
  set (m := country_to_region_of flows_df).
  set (st1 := {| shown := _; file := None |}).
  destruct (apply_compute_decade parse (master_rows master_df)) as [ds|e'] eqn:Happ.
  2: { destruct (proj1 (apply_compute_decade_overflow parse _ e') Happ)
         as [-> Hinf].
       split.
       - intros (st & [= <-]). by left.
       - intros [[-> _]|(_ & Hfin & _)]; [by eexists|].
         destruct Hinf as (row & y & Hin & Hy & Hinf). by destruct (Hfin row y Hin Hy). }
  assert (forall row y, row ∈ master_rows master_df -> year_of parse row = Some y ->
                        ~ infinite y) as Hfin.
  { intros row y Hin Hy Hinf.
    assert (apply_compute_decade parse (master_rows master_df) = Raised OverflowError)
      as Habs by (apply apply_compute_decade_overflow; eauto 6).
    congruence. }
  assert (~ (e = OverflowError
             /\ exists row y, row ∈ master_rows master_df
                              /\ year_of parse row = Some y /\ infinite y)) as Hno.
  { intros [_ (row & y & Hin & Hy & Hinf)]. exact (Hfin row y Hin Hy Hinf). }
  destruct (bool_decide (omap _ _ = [])) eqn:Hk.
  { apply bool_decide_eq_true in Hk. split.
    - intros (st & [=]).
    - intros [?|(_ & _ & (row & Hin & Hd) & _)]; [done|]. exfalso.
      apply omap_row_key_nil in Hk. rewrite Forall_forall in Hk.
      rewrite (Hk row Hin) in Hd. discriminate. }
  apply bool_decide_eq_false in Hk.
  assert (exists row, row ∈ master_rows master_df /\ has_decade parse row = true)
    as Hsome.
  { destruct (decide (Exists (fun row => has_decade parse row = true)
                        (master_rows master_df))) as [Hex|Hex].
    - by apply Exists_exists in Hex.
    - exfalso. apply Hk. apply omap_row_key_nil, Forall_forall. intros row Hin.
      destruct (has_decade parse row) eqn:Hd; [|done].
      exfalso. apply Hex. apply Exists_exists. by exists row. }
  unfold has_column.
  destruct (bool_decide (MASTER_CLASS_COL ∈ _)) eqn:Hc; cbn [andb].
  2: { apply bool_decide_eq_false in Hc. split.
       - intros (st & [= <-]). right. by repeat split; [..|left].
       - intros [?|(-> & _)]; [done | by eexists]. }
  destruct (bool_decide (MASTER_MEDIUM_COL ∈ _)) eqn:Hmd.
  2: { apply bool_decide_eq_false in Hmd. split.
       - intros (st & [= <-]). right. by repeat split; [..|right].
       - intros [?|(-> & _)]; [done | by eexists]. }
  apply bool_decide_eq_true in Hc, Hmd.
  destruct (save_grouped w _ st1) as [st fl] eqn:Hs.
  pose proof (save_grouped_outcome w _ st1 st fl Hs eq_refl) as Hout.
  split.
  - intros (st' & [= <- ->]). done.
  - intros [?|(_ & _ & _ & [?|?])]; done.
Qed.

Lemma run_raises_iff_witness :
  exists st,
    run decimal_numeral (world_of master_with_infinite_year None)
    = (st, Raise OverflowError).
Proof.
  apply (run_raises_iff decimal_numeral (world_of master_with_infinite_year None)
           master_with_infinite_year None OverflowError).
  - split; [done|]. split; [reflexivity|]. apply (bool_decide_unpack _). reflexivity.
  - reflexivity.
  - left. split; [done|]. exists row_infinite_year, PosInf.
    split; [|split; [reflexivity | by left]].
    apply (elem_of_app (master_rows example_master) [row_infinite_year]).
    right. by left.
Defined.

(** * More on the written table *)

Lemma written_rows parse (w : world) (master_df : master_frame)
    (flows_df : option flows_frame) (st : state) (fl : flow unit)
    (path : string) (rows : list agg_row) :
  master_loaded w master_df -> flows_loaded w flows_df ->
  run parse w = (st, fl) -> file st = Some (path, rows) ->
  rows = groupby_size (omap (row_key parse (country_to_region_of flows_df))
                            (master_rows master_df)).
Proof.
  intros Hm Hf Hrun Hfile.
  rewrite (run_closed_form parse w master_df flows_df Hm Hf) in Hrun. cbv zeta in Hrun.
  destruct (apply_compute_decade parse (master_rows master_df));
    [|injection Hrun as <- <-; discriminate].
  destruct (bool_decide _); [injection Hrun as <- <-; discriminate|].
  destruct (_ && _); [|injection Hrun as <- <-; discriminate].
  pose proof (save_grouped_outcome w _ _ st fl Hrun eq_refl) as Hout.
  destruct fl as [[]| |e]; [|destruct Hout as [Hn _]; congruence|done].
  destruct Hout as (_ & _ & _ & Hfile' & _). congruence.
Qed.

Lemma occurrences_omap {A B : Type} `{EqDecision B} (f : A -> option B)
    (l : list A) (k : B) :
  occurrences_of (omap f l) k = length (filter (fun x => f x = Some k) l).
Proof.
  unfold occurrences_of. induction l as [|x l IH]; [done|].
  rewrite omap_cons, (filter_cons (fun x => f x = Some k)).
  destruct (f x) as [y|] eqn:Hfx.
  - rewrite filter_cons. destruct (decide (y = k)) as [->|Hne].
    + rewrite decide_True by done. simpl. by rewrite IH.
    + rewrite decide_False by congruence. exact IH.
  - rewrite decide_False by discriminate. exact IH.
Qed.

(** X12. In a written table the [n_objects] of a row is the number of master
    records with that row's group key, and is at least one; and every master
    record with a decade has its group key in the table. *)
Theorem written_groups parse (w : world) (master_df : master_frame)
    (flows_df : option flows_frame) (st : state) (fl : flow unit)
    (path : string) (rows : list agg_row) :
  master_loaded w master_df -> flows_loaded w flows_df ->
  run parse w = (st, fl) -> file st = Some (path, rows) ->
  let m := country_to_region_of flows_df in
  (forall r, r ∈ rows ->
     n_objects r
     = length (filter (fun row => row_key parse m row = Some (key_of r))
                      (master_rows master_df))
     /\ (1 <= n_objects r)%nat)
  /\ (forall row k, row ∈ master_rows master_df -> row_key parse m row = Some k ->
        exists r, r ∈ rows /\ key_of r = k).
Proof.
  intros Hm Hf Hrun Hfile m.
  rewrite (written_rows parse w master_df flows_df st fl path rows Hm Hf Hrun Hfile).
  fold m. split.
  - intros r Hr. apply elem_of_groupby_size in Hr as [Hk ->].
    split; [apply occurrences_omap|]. apply occurrences_pos in Hk. lia.
  - intros row k Hin Hk.
    assert (k ∈ key_of <$> groupby_size (omap (row_key parse m) (master_rows master_df)))
      as Hkin.
    { rewrite key_of_groupby_size, merge_sort_Permutation, elem_of_remove_dups.
      apply list_elem_of_omap. by exists row. }
    apply list_elem_of_fmap in Hkin as (r & -> & Hr). by exists r.
Qed.

Lemma written_groups_witness :
  exists st path rows,
    run decimal_numeral example_world = (st, Next tt)
    /\ file st = Some (path, rows)
    /\ forall r, r ∈ rows -> (1 <= n_objects r)%nat.
Proof.
  destruct (run decimal_numeral example_world) as [st fl] eqn:Hrun.
  assert (fl = Next tt /\ exists path rows, file st = Some (path, rows))
    as (-> & path & rows & Hfile).
  { vm_compute in Hrun. injection Hrun as <- <-. split; [done|]. by eexists _, _. }
  exists st, path, rows. split; [done|]. split; [done|].
  assert (master_loaded example_world example_master) as Hm.
  { split; [done|]. split; [reflexivity|]. apply (bool_decide_unpack _). reflexivity. }
  assert (flows_loaded example_world (Some example_flows)) as Hf
    by (split; [done | reflexivity]).
  destruct (written_groups decimal_numeral example_world example_master
              (Some example_flows) st (Next tt) path rows Hm Hf Hrun Hfile)
    as [Hcount _].
  intros r Hr. by destruct (Hcount r Hr).
Defined.




(** * Stripping *)

Lemma rstrip_cons (c : ascii) (s : string) :
  rstrip (String c s) =
  match rstrip s with
  | EmptyString => if is_space c then EmptyString else String c EmptyString
  | t => String c t
  end.
Proof. reflexivity. Qed.

Lemma rstrip_idemp (s : string) : rstrip (rstrip s) = rstrip s.
Proof.
  induction s as [|c s IH]; [done|].
  rewrite rstrip_cons. destruct (rstrip s) as [|c' t] eqn:Hs.
  - destruct (is_space c) eqn:Hc; [done|]. rewrite rstrip_cons. cbn [rstrip].
    by rewrite Hc.
  - rewrite rstrip_cons, IH. reflexivity.
Qed.

Lemma lstrip_head (s : string) :
  match lstrip s with
  | EmptyString => True
  | String c _ => is_space c = false
  end.
Proof.
  induction s as [|c s IH]; [done|]. cbn [lstrip].
  destruct (is_space c) eqn:Hc; [exact IH | exact Hc].
Qed.

Lemma rstrip_head (c : ascii) (s : string) :
  is_space c = false -> exists t, rstrip (String c s) = String c t.
Proof.
  intros Hc. rewrite rstrip_cons. destruct (rstrip s); rewrite ?Hc; by eexists.
Qed.

Lemma strip_idemp (s : string) : strip (strip s) = strip s.
Proof.
  unfold strip. pose proof (lstrip_head s) as Hh.
  destruct (lstrip s) as [|c t]; [done|].
  destruct (rstrip_head c t Hh) as [u Hu]. rewrite Hu.
  cbn [lstrip]. rewrite Hh, <- Hu. apply rstrip_idemp.
Qed.

(** * The rows of the written table *)

Lemma row_key_fields parse m (row : master_row) (k : key) :
  row_key parse m row = Some k ->
  exists d,
    compute_decade parse row = Ok (Some d)
    /\ k = (region_of m (strip (astype_str (origin_country_std row))),
            (if bool_decide (strip (astype_str (origin_country_std row)) = EmptyString)
             then "Unknown" else strip (astype_str (origin_country_std row))),
            d,
            categorize_medium (classification_std row) (medium_std row)).
Proof.
  unfold row_key. destruct (compute_decade parse row) as [[d|]|]; try discriminate.
  intros [= <-]. by exists d.
Qed.

(** X14. Every row of a written table has a country that is not empty and
    carries no surrounding whitespace, a decade that is a multiple of ten
    between 1400 and 2020, one of the eight medium labels, and a count of at
    least one. *)
Theorem written_row_invariants parse (w : world) (st : state) (fl : flow unit)
    (path : string) (rows : list agg_row) (r : agg_row) :
  run parse w = (st, fl) -> file st = Some (path, rows) -> r ∈ rows ->
  country r <> EmptyString
  /\ strip (country r) = country r
  /\ 1400 <= decade r <= 2020 /\ decade r mod 10 = 0
  /\ medium_group r ∈ ["Photographs"; "Prints"; "Drawings"; "Paintings"; "Sculpture";
                       "Textiles"; "Decorative arts"; "Other"]
  /\ (1 <= n_objects r)%nat.
Proof.
  intros Hrun Hfile Hr.
  destruct (run_written parse w st fl path rows Hrun Hfile)
    as (mdf & fdf & m & _ & _ & _ & _ & ->).
  apply elem_of_groupby_size in Hr as [Hk Hn].
  assert (1 <= n_objects r)%nat as Hpos.
  { rewrite Hn. apply occurrences_pos in Hk. lia. }
  apply list_elem_of_omap in Hk as (row & _ & Hk).
  apply row_key_fields in Hk as (d & Hd & Hk).
  destruct r as [g c d' mg n]. unfold key_of in Hk. cbn [region country decade
    medium_group n_objects] in *. injection Hk as -> -> -> ->.
  pose proof (compute_decade_Some_range parse row d Hd) as [Hrange Hmod].
  split.
  { destruct (bool_decide _) eqn:Hb; [done|]. by apply bool_decide_eq_false in Hb. }
  split.
  { destruct (bool_decide _); [reflexivity | apply strip_idemp]. }
  split; [done|]. split; [done|]. split; [|done].
  apply categorize_medium_in_labels.
Qed.

Lemma written_row_invariants_witness :
  exists st path rows,
    run decimal_numeral example_world = (st, Next tt)
    /\ file st = Some (path, rows)
    /\ forall r, r ∈ rows -> country r <> EmptyString /\ 1400 <= decade r <= 2020.
Proof.
  destruct (run decimal_numeral example_world) as [st fl] eqn:Hrun.
  assert (fl = Next tt /\ exists path rows, file st = Some (path, rows))
    as (-> & path & rows & Hfile).
  { vm_compute in Hrun. injection Hrun as <- <-. split; [done|]. by eexists _, _. }
  exists st, path, rows. split; [done|]. split; [done|].
  intros r Hr.
  destruct (written_row_invariants decimal_numeral example_world st (Next tt) path rows r
              Hrun Hfile Hr) as (Hc & _ & Hd & _).
  by split.
Defined.

(** * The dictionary and the stripped country *)

(** The test for an empty dictionary changes nothing: a region is the entry of
    the country, or Unknown. *)
Lemma region_of_lookup (m : gmap string string) (c : string) :
  region_of m c = default "Unknown" (m !! c).
Proof.
  unfold region_of. destruct (bool_decide (m = ∅)) eqn:Hm; [|done].
  apply bool_decide_eq_true in Hm. subst m. by rewrite lookup_empty.
Qed.

(** X15. The countries of the dictionary are looked up as they stand, while
    the countries of the master table are stripped first: an entry whose
    country has leading or trailing whitespace is never used, and removing it
    changes no record's group key. *)
Theorem unstripped_lookup_key_unused parse (m : gmap string string) (c : string)
    (row : master_row) :
  strip c <> c ->
  row_key parse (delete c m) row = row_key parse m row.
Proof.
  intros Hc. unfold row_key.
  destruct (compute_decade parse row) as [[d|]|]; [|done|done].
  unfold derive, group_key. cbn [d_region d_country d_decade].
  rewrite !region_of_lookup, lookup_delete_ne; [done|].
  intros ->. apply Hc. apply strip_idemp.
Qed.

Lemma unstripped_lookup_key_unused_witness :
  strip " France" <> " France"
  /\ row_key decimal_numeral (delete " France" {[ " France" := "Europe" ]})
       (object_row " France" 1875 "Painting" "oil on canvas")
     = row_key decimal_numeral {[ " France" := "Europe" ]}
         (object_row " France" 1875 "Painting" "oil on canvas").
Proof.
  assert (strip " France" <> " France") as Hne by discriminate.
  split; [exact Hne|].
  exact (unstripped_lookup_key_unused decimal_numeral {[ " France" := "Europe" ]}
           " France" (object_row " France" 1875 "Painting" "oil on canvas") Hne).
Defined.

(** * A lookup table without a complete row *)




(** * The country cell and its stripped text *)

(** X18. Only the stripped text of the country cell matters: replacing the
    cell by that text (nan for a missing cell) leaves the group key of the
    record as it is. *)
Theorem row_key_of_stripped_country parse (m : gmap string string) (row : master_row) :
  row_key parse m
    (with_country row (PyStr (strip (astype_str (origin_country_std row)))))
  = row_key parse m row.
Proof.
  unfold row_key, compute_decade, year_of, with_country, derive, group_key.
  cbn [origin_country_std creation_start_year_std creation_end_year_std
       classification_std medium_std astype_str d_region d_country d_decade].
  by rewrite strip_idemp.
Qed.

(** * The order of the keys *)

Lemma lex_le_trans {A : Type} (cmp : A -> A -> comparison) (x y z : A)
    (p q r : bool) :
  (forall a b, cmp a b = Eq <-> a = b) ->
  (forall a b c, cmp a b = Lt -> cmp b c = Lt -> cmp a c = Lt) ->
  match cmp x y with Eq => p | Lt => true | Gt => false end = true ->
  match cmp y z with Eq => q | Lt => true | Gt => false end = true ->
  (x = y -> y = z -> p = true -> q = true -> r = true) ->
  match cmp x z with Eq => r | Lt => true | Gt => false end = true.
Proof.
  intros Heq Htr Hxy Hyz Hin.
  destruct (cmp x y) eqn:Exy; [|clear Hxy|discriminate].
  - apply Heq in Exy as Hxy'. subst y.
    destruct (cmp x z) eqn:Exz; [|done|discriminate].
    apply Heq in Exz as Hxz. by apply Hin.
  - destruct (cmp y z) eqn:Eyz; [| |discriminate].
    + apply Heq in Eyz. subst z. by rewrite Exy.
    + by rewrite (Htr x y z Exy Eyz).
Qed.

Lemma lex_le_antisym {A : Type} (cmp : A -> A -> comparison) (x y : A) (p q : bool) :
  (forall a b, cmp a b = Eq <-> a = b) ->
  (forall a b, cmp b a = CompOpp (cmp a b)) ->
  match cmp x y with Eq => p | Lt => true | Gt => false end = true ->
  match cmp y x with Eq => q | Lt => true | Gt => false end = true ->
  x = y /\ p = true /\ q = true.
Proof.
  intros Heq Hop Hxy Hyx. rewrite (Hop x y) in Hyx.
  destruct (cmp x y) eqn:Exy; try discriminate.
  apply Heq in Exy. by subst.
Qed.

Lemma string_compare_eq (a b : string) : String.compare a b = Eq <-> a = b.
Proof.
  split; [apply String.compare_eq_iff|]. intros <-.
  induction a as [|x a IH]; [done|]. simpl.
  unfold Ascii.compare. by rewrite N.compare_refl.
Qed.

Lemma string_compare_lt_trans (a b c : string) :
  String.compare a b = Lt -> String.compare b c = Lt -> String.compare a c = Lt.
Proof.
  intros Hab Hbc.
  assert (String.le a c) as Hac.
  { transitivity b; unfold String.le, String.leb; [by rewrite Hab | by rewrite Hbc]. }
  unfold String.le, String.leb in Hac.
  destruct (String.compare a c) eqn:Eac; [|done|done].
  apply String.compare_eq_iff in Eac. subst c.
  rewrite String.compare_antisym, Hab in Hbc. discriminate.
Qed.

Lemma Z_compare_lt_trans (a b c : Z) :
  (a ?= b) = Lt -> (b ?= c) = Lt -> (a ?= c) = Lt.
Proof. rewrite !Z.compare_lt_iff. lia. Qed.

Lemma key_le_trans : Transitive key_le.
Proof.
  intros [[[r1 c1] d1] m1] [[[r2 c2] d2] m2] [[[r3 c3] d3] m3].
  unfold key_le, key_leb. intros H12 H23.
  eapply (lex_le_trans String.compare r1 r2 r3);
    [apply string_compare_eq | apply string_compare_lt_trans
    | exact H12 | exact H23 |].
  intros _ _ H12' H23'.
  eapply (lex_le_trans String.compare c1 c2 c3);
    [apply string_compare_eq | apply string_compare_lt_trans
    | exact H12' | exact H23' |].
  intros _ _ H12'' H23''.
  eapply (lex_le_trans Z.compare d1 d2 d3);
    [apply Z.compare_eq_iff | apply Z_compare_lt_trans
    | exact H12'' | exact H23'' |].
  intros _ _ Hm12 Hm23.
  apply Is_true_true. apply Is_true_true in Hm12, Hm23.
  exact (transitivity (R:=String.le) Hm12 Hm23).
Qed.

Lemma key_le_antisym : AntiSymm (=) key_le.
Proof.
  intros [[[r1 c1] d1] m1] [[[r2 c2] d2] m2].
  unfold key_le, key_leb. intros H12 H21.
  destruct (lex_le_antisym String.compare r1 r2 _ _ string_compare_eq
              (fun a b => String.compare_antisym b a) H12 H21) as (-> & H12' & H21').
  destruct (lex_le_antisym String.compare c1 c2 _ _ string_compare_eq
              (fun a b => String.compare_antisym b a) H12' H21') as (-> & H12'' & H21'').
  destruct (lex_le_antisym Z.compare d1 d2 _ _ Z.compare_eq_iff
              (fun a b => Z.compare_antisym a b) H12'' H21'') as (-> & Hm12 & Hm21).
  by rewrite (String.leb_antisym m1 m2 Hm12 Hm21).
Qed.

(** The grouped table does not depend on the order of the keys. *)
Lemma groupby_size_Permutation (keys keys' : list key) :
  keys ≡ₚ keys' -> groupby_size keys = groupby_size keys'.
Proof.
  intros Hp. unfold groupby_size.
  assert (merge_sort key_le (remove_dups keys) = merge_sort key_le (remove_dups keys'))
    as ->.
  { apply (@Sorted_unique _ key_le key_le_trans key_le_antisym).
    - apply (@Sorted_merge_sort _ key_le _ key_le_total).
    - apply (@Sorted_merge_sort _ key_le _ key_le_total).
    - rewrite !merge_sort_Permutation.
      apply NoDup_Permutation; [apply NoDup_remove_dups..|].
      intros k. by rewrite !elem_of_remove_dups, Hp. }
  apply list_fmap_ext. intros i [[[r c] d] m] _.
  unfold occurrences_of. by rewrite Hp.
Qed.

(** X17. The grouping does not depend on the order of the master records:
    on a permutation of the rows, lines 186 to 230 show the same dialogs, end
    the same way and yield the same grouped table. *)
Theorem prepare_and_group_any_order parse (m : gmap string string)
    (cols : list string) (rows rows' : list master_row) (st : state) :
  rows ≡ₚ rows' ->
  prepare_and_group parse m {| master_columns := cols; master_rows := rows |} st
  = prepare_and_group parse m {| master_columns := cols; master_rows := rows' |} st.
Proof.
  intros Hp. rewrite !prepare_and_group_eq. cbn [master_rows master_columns]. cbv zeta.
  assert (omap (row_key parse m) rows ≡ₚ omap (row_key parse m) rows') as Hkeys
    by (by rewrite Hp).
  assert (forall l l' : list master_row, l ≡ₚ l' -> forall e,
            apply_compute_decade parse l = Raised e ->
            apply_compute_decade parse l' = Raised e) as Hraise.
  { intros l l' Hl e He. apply apply_compute_decade_overflow.
    apply apply_compute_decade_overflow in He as [-> (row & y & Hin & Hy)].
    split; [done|]. exists row, y. by rewrite <- Hl. }
  destruct (apply_compute_decade parse rows) as [ds|e] eqn:Ha.
  2: { by rewrite (Hraise rows rows' Hp e Ha). }
  destruct (apply_compute_decade parse rows') as [ds'|e] eqn:Ha'.
  2: { symmetry in Hp. rewrite (Hraise rows' rows Hp e Ha') in Ha. discriminate. }
  rewrite (groupby_size_Permutation _ _ Hkeys).
  destruct (decide (omap (row_key parse m) rows = [])) as [Hnil|Hne].
  - rewrite (bool_decide_eq_true_2 _ Hnil). rewrite Hnil in Hkeys.
    apply Permutation_nil in Hkeys.
    by rewrite (bool_decide_eq_true_2 _ Hkeys).
  - rewrite (bool_decide_eq_false_2 _ Hne).
    rewrite bool_decide_eq_false_2; [done|].
    intros Hnil. rewrite Hnil in Hkeys. by apply Permutation_nil_r in Hkeys.
Qed.

Lemma prepare_and_group_any_order_witness :
  prepare_and_group decimal_numeral ∅ example_master {| shown := []; file := None |}
  = prepare_and_group decimal_numeral ∅
      {| master_columns := master_columns example_master;
         master_rows := reverse (master_rows example_master) |}
      {| shown := []; file := None |}.
Proof.
  apply (prepare_and_group_any_order decimal_numeral ∅ (master_columns example_master)
           (master_rows example_master) (reverse (master_rows example_master))).
  symmetry. apply reverse_Permutation.
Defined.
